(** * md2conf: the synchronization engine of [md2conf/application.py]

    A shallow embedding of class [Application]: the Local State Writer
    ([_update_markdown]), the Identity Resolver ([_get_or_create_page],
    [_create_page]), the Directory Indexer ([_index_directory]) and the Page
    Synchronizer ([_synchronize_page], [_update_document]).

    Python [str] values are sequences of characters; the operations the
    module uses on them ([startswith], [find], slicing, [join], f-strings)
    are written out below with Python's conventions. *)

From Stdlib Require Import ZArith Lia Ascii String.
From stdpp Require Import base tactics option list gmap strings.

Set Warnings "-register-all".
Local Open Scope Z_scope.

(** ** Python strings *)

Definition str := list ascii.

Definition lit (s : string) : str := list_ascii_of_string s.

(** The character written [\n] in the Python source. *)
Definition nl : ascii := Ascii.ascii_of_nat 10.

(** [s.startswith(p)] *)
Fixpoint startswith (p s : str) : bool :=
  match p, s with
  | [], _ => true
  | _ :: _, [] => false
  | a :: p', b :: s' => if decide (a = b) then startswith p' s' else false
  end.

(** The scan of [s.find(sub, start)]: [s] is the text from index [i] on;
    the lowest index at which [sub] occurs, or [-1]. *)
Fixpoint find_from (sub s : str) (i : nat) : Z :=
  if startswith sub s then Z.of_nat i
  else match s with
       | [] => -1
       | _ :: s' => find_from sub s' (S i)
       end.

(** [s.find(sub, start)] for a non-negative [start]. *)
Definition find (sub s : str) (start : nat) : Z :=
  if decide (start ≤ length s)%nat then find_from sub (drop start s) start
  else -1.

(** The bound of a slice [s[:i]] or [s[i:]] on a string of length [n]: a
    negative index counts from the end, and the result is clamped to
    [0..n]. *)
Definition slice_index (i : Z) (n : nat) : nat :=
  Z.to_nat (if i <? 0 then Z.max 0 (i + Z.of_nat n) else Z.min i (Z.of_nat n)).

(** [s[:i]] *)
Definition slice_to (i : Z) (s : str) : str := take (slice_index i (length s)) s.

(** [s[i:]] *)
Definition slice_from (i : Z) (s : str) : str := drop (slice_index i (length s)) s.

(** [sep.join(parts)] *)
Fixpoint join (sep : str) (parts : list str) : str :=
  match parts with
  | [] => []
  | [p] => p
  | p :: ps => p ++ sep ++ join sep ps
  end.

(** [s.split("\n")]: the lines of a text. *)
Fixpoint lines_acc (cur : str) (s : str) : list str :=
  match s with
  | [] => [reverse cur]
  | c :: s' => if decide (c = nl) then reverse cur :: lines_acc [] s'
               else lines_acc (c :: cur) s'
  end.

Definition lines (s : str) : list str := lines_acc [] s.

(** Truthiness of an [Optional[str]]: [None] and the empty string are
    false. *)
Definition truthy (o : option str) : bool :=
  match o with
  | Some (_ :: _) => true
  | _ => false
  end.

(** ** Local State Writer: the text [_update_markdown] writes *)

Definition FM_OPEN : str := lit "---" ++ [nl].
Definition FM_CLOSE : str := nl :: lit "---" ++ [nl].

(** [f"<!-- confluence-page-id: {page_id} -->"] *)
Definition page_id_comment (page_id : str) : str :=
  lit "<!-- confluence-page-id: " ++ page_id ++ lit " -->".

(** [f"<!-- confluence-space-key: {space_key} -->"] *)
Definition space_key_comment (space_key : str) : str :=
  lit "<!-- confluence-space-key: " ++ space_key ++ lit " -->".

(** The marker entries appended to [content]: the page id always, the space
    key only [if space_key:]. *)
Definition marker_entries (page_id : str) (space_key : option str) : list str :=
  page_id_comment page_id ::
  match space_key with
  | Some k => if truthy space_key then [space_key_comment k] else []
  | None => []
  end.

(** [index] after the front-matter check of [_update_markdown]. *)
Definition split_index (document : str) : Z :=
  if startswith FM_OPEN document then find FM_CLOSE document 4 + 4 else 0.

(** The list [content] of [_update_markdown] just before it is joined. *)
Definition markdown_content (document page_id : str) (space_key : option str)
  : list str :=
  let index := split_index document in
  (if startswith FM_OPEN document then [slice_to index document] else [])
  ++ marker_entries page_id space_key
  ++ [slice_from index document].

(** The text [_update_markdown] writes to the file. *)
Definition updated_markdown (document page_id : str) (space_key : option str)
  : str :=
  join [nl] (markdown_content document page_id space_key).

(** ** Paths

    A [pathlib.Path] is its list of components. *)

Definition Path := list str.

(** [directory / name], the right operand being one component. *)
Definition path_join (directory : Path) (name : str) : Path := directory ++ [name].

(** [path.parent] *)
Definition path_parent (path : Path) : Path := removelast path.

(** [path.name] *)
Definition path_name (path : Path) : str := List.last path [].

(** [name.rfind(c)], [name] being the text from index [i] on. *)
Fixpoint rfind_char (c : ascii) (name : str) (i : nat) : Z :=
  match name with
  | [] => -1
  | a :: name' =>
      let r := rfind_char c name' (S i) in
      if 0 <=? r then r else if decide (a = c) then Z.of_nat i else -1
  end.

(** [path.stem]: the final component without its suffix, as pathlib computes
    it ([i = name.rfind('.')], and [name[:i]] when [0 < i < len(name) - 1]). *)
Definition stem (path : Path) : str :=
  let name := path_name path in
  let i := rfind_char "."%char name 0 in
  if (0 <? i) && (i <? Z.of_nat (length name) - 1) then slice_to i name else name.

(** ** Data of the collaborating modules

    The classes below are declared in api.py and converter.py; their
    fields are the ones [application.py] reads and writes. *)

(** Modelled from the spec: [converter.ConfluenceQualifiedID], a page id
    with an optional space key; the absence of the space key stands for the
    current space. *)
Module ConfluenceQualifiedID.
Record t := mk { page_id : str; space_key : option str }.
End ConfluenceQualifiedID.

(** Modelled from the spec: [api.ConfluencePage], a remote page as the
    session answers it; the space key and the title may be missing. *)
Module ConfluencePage.
Record t := mk { id : str; space_key : option str; title : option str }.
End ConfluencePage.

(** Modelled from the spec: [converter.ConfluencePageMetadata], what the
    Identity Map keeps for a file. *)
Module ConfluencePageMetadata.
Record t := mk {
  domain : str;
  base_path : str;
  page_id : str;
  space_key : str;
  title : str;
}.
End ConfluencePageMetadata.

(** Modelled from the spec: [converter.ConfluenceDocument], the converted
    document: its identity, the images it references by path, the images
    it carries ([embedded_images] is a dict, iterated by [.items()] in
    insertion order) and the result of the call [document.xhtml()]. *)
Module ConfluenceDocument.
Record t := mk {
  id : ConfluenceQualifiedID.t;
  images : list str;
  embedded_images : list (str * str);
  xhtml : str;
}.
End ConfluenceDocument.

#[global] Instance qualified_id_eq_dec : EqDecision ConfluenceQualifiedID.t.
Proof. solve_decision. Defined.

(** [page_metadata: Dict[Path, ConfluencePageMetadata]]: a Python dict keeps
    its keys unique and in insertion order. *)
Definition Dict := list (Path * ConfluencePageMetadata.t).

(** [d[k] = v] *)
Fixpoint dict_set (k : Path) (v : ConfluencePageMetadata.t) (d : Dict) : Dict :=
  match d with
  | [] => [(k, v)]
  | (k', v') :: d' =>
      if decide (k = k') then (k, v) :: d' else (k', v') :: dict_set k v d'
  end.

(** [d.keys()] *)
Definition dict_keys (d : Dict) : list Path := map fst d.

(** [l.remove(x)]: drops the first occurrence. *)
Fixpoint list_remove (x : Path) (l : list Path) : list Path :=
  match l with
  | [] => []
  | y :: l' => if decide (x = y) then l' else y :: list_remove x l'
  end.

(** [x or y] on an [Optional[str]] with a [str] default. *)
Definition or_else (x : option str) (y : str) : str :=
  match x with
  | Some (c :: k) => c :: k
  | _ => y
  end.

(** What [yaml.safe_load] can build, as far as the title lookup tells the
    results apart: a string, a mapping (its string keys), or any other
    object (None, a number, a list, ...). *)
Inductive Yaml :=
| YStr (s : str)
| YMap (items : list (str * Yaml))
| YOther.

(** [properties.get(key)] *)
Fixpoint yaml_get (key : str) (items : list (str * Yaml)) : option Yaml :=
  match items with
  | [] => None
  | (k, v) :: items' => if decide (k = key) then Some v else yaml_get key items'
  end.

Inductive Exception :=
| ValueError (absolute_path : Path)
    (* "expected: parent page ID for Markdown file with no linked
       Confluence page: {absolute_path}" *)
| FileNotFoundError (path : Path)
| NotADirectoryError (path : Path)
| YAMLError
| RemoteError (detail : str)
| DocumentError (detail : str).

(** An entry of [os.scandir]; a directory carries its own listing. *)
Inductive Entry :=
| File (name : str)
| Other (name : str)
| Directory (name : str) (children : list Entry).

Definition entry_name (e : Entry) : str :=
  match e with File n | Other n | Directory n _ => n end.

Definition is_file (e : Entry) : bool :=
  match e with File _ => true | _ => false end.

Definition is_dir (e : Entry) : bool :=
  match e with Directory _ _ => true | _ => false end.

(** The remote calls [application.py] issues through [self.api]. *)
Inductive Call :=
| GetPage (page_id : str) (space_key : option str)
| GetOrCreatePage (title parent_id : str) (space_key : option str)
| UploadAttachment (page_id : str) (source : Path) (name : str)
    (raw_data : option str)
| UpdatePage (page_id content : str).

(** What a run leaves behind, in order: the remote calls, each with the
    session's space key at the time of the call, and two history marks that
    the program does not read: the entry of [_get_or_create_page] with its
    arguments and the entry of [_synchronize_page]. *)
Inductive Event :=
| Resolve (absolute_path : Path) (parent_id : option ConfluenceQualifiedID.t)
| Synchronize (page_path : Path)
| Remote (space : str) (call : Call).

(** ** The collaborators

    [ConfluenceSession] (api.py), the converter functions that the engine
    takes as given, [Matcher] (matcher.py) and [yaml.safe_load] are
    parameters: every theorem below holds whatever they answer. A remote
    operation gets the session's current space key and the state of the
    wiki, and answers with a result or with the detail of the error it
    raises; [safe_load] answers [None] where PyYAML raises [YAMLError]. *)
Class Collaborators := {
  Wiki : Type;
  api_domain : str;
  api_base_path : str;
  root_page_id : option str;
  get_page : str → option str → str → Wiki → (str + ConfluencePage.t) * Wiki;
  get_or_create_page :
    str → str → option str → str → Wiki → (str + ConfluencePage.t) * Wiki;
  upload_attachment :
    str → Path → str → option str → str → Wiki → (str + unit) * Wiki;
  update_page : str → str → str → Wiki → (str + unit) * Wiki;
  extract_frontmatter : str → option str * str;
  attachment_name : str → str;
  load_document : Path → Dict → gmap Path str → str + ConfluenceDocument.t;
  is_excluded : Path → str → bool → bool;
  safe_load : str → option Yaml;
}.

(** ** The identity marker parser (converter.py)

    The parser is not among the sources; it is written here after the
    spec's description of the local file format: the identity marker is a
    comment [<!-- confluence-page-id: ID -->], optionally with a comment
    [<!-- confluence-space-key: KEY -->], and the parser takes the marker
    out of the text if present. ID and KEY are taken to be words: non-empty
    runs of characters other than white space. *)

(** [c.isspace()] on the characters of a text file. *)
Definition is_space (c : ascii) : bool :=
  let n := Ascii.nat_of_ascii c in
  ((9 <=? n) && (n <=? 13))%nat || (n =? 32)%nat.

(** [Some rest] when [s] is [p] followed by [rest]. *)
Fixpoint strip_prefix (p s : str) : option str :=
  match p, s with
  | [], _ => Some s
  | _ :: _, [] => None
  | a :: p', b :: s' => if decide (a = b) then strip_prefix p' s' else None
  end.

(** The longest run of characters other than white space at the head of a
    text, and what follows it. *)
Fixpoint span_word (s : str) : str * str :=
  match s with
  | [] => ([], [])
  | c :: s' =>
      if is_space c then ([], s)
      else let '(w, r) := span_word s' in (c :: w, r)
  end.

(** The comment [<!-- KEY: VALUE -->] and its two fixed parts. *)
Definition comment_open (key : str) : str := lit "<!-- " ++ key ++ lit ": ".
Definition COMMENT_CLOSE : str := lit " -->".

(** A comment [<!-- KEY: VALUE -->] at the head of a text: the value, a
    non-empty word, and the text after the comment. *)
Definition match_comment (key s : str) : option (str * str) :=
  match strip_prefix (comment_open key) s with
  | None => None
  | Some s1 =>
      match span_word s1 with
      | ([], _) => None
      | (value, s2) =>
          match strip_prefix COMMENT_CLOSE s2 with
          | None => None
          | Some s3 => Some (value, s3)
          end
      end
  end.

(** The first comment [<!-- KEY: VALUE -->] of a text: its value, and the
    text with that comment cut out. *)
Fixpoint extract_comment (key s : str) : option str * str :=
  match match_comment key s with
  | Some (value, rest) => (Some value, rest)
  | None =>
      match s with
      | [] => (None, [])
      | c :: s' => let '(v, t) := extract_comment key s' in (v, c :: t)
      end
  end.

Definition PAGE_ID_KEY : str := lit "confluence-page-id".
Definition SPACE_KEY_KEY : str := lit "confluence-space-key".

(** Modelled from the spec: [converter.extract_qualified_id], which is not
    among the sources. The spec has it parse the identity marker, comments
    of the form [<!-- confluence-page-id: ID -->] and
    [<!-- confluence-space-key: KEY -->], out of the text if present: the
    page id comment decides whether there is an identity, the space key
    comment is optional, and the text is returned without them. *)
Definition extract_qualified_id (text : str)
  : option ConfluenceQualifiedID.t * str :=
  match extract_comment PAGE_ID_KEY text with
  | (None, text) => (None, text)
  | (Some page_id, text) =>
      let '(space_key, text) := extract_comment SPACE_KEY_KEY text in
      (Some (ConfluenceQualifiedID.mk page_id space_key), text)
  end.

(** A text that carries neither comment of the identity marker. *)
Definition lacks_marker (text : str) : Prop :=
  (extract_comment PAGE_ID_KEY text).1 = None ∧
  (extract_comment SPACE_KEY_KEY text).1 = None.


(** ** Reading a history *)

(** The calls of [_get_or_create_page] in a history: each file with the
    parent identity it was resolved under. *)
Definition resolutions (h : list Event)
  : list (Path * option ConfluenceQualifiedID.t) :=
  omap (λ ev, match ev with Resolve p q => Some (p, q) | _ => None end) h.

(** The pages a history synchronizes, in order. *)
Definition synchronized (h : list Event) : list Path :=
  omap (λ ev, match ev with Synchronize p => Some p | _ => None end) h.

(** The events of indexing: a resolution, and the remote calls that fetch
    or create a page. *)
Definition is_index_event (ev : Event) : bool :=
  match ev with
  | Resolve _ _ => true
  | Remote _ (GetPage _ _) | Remote _ (GetOrCreatePage _ _ _) => true
  | _ => false
  end.

(** The events of synchronizing a page: its start, and the remote calls
    that upload an attachment or update the content. *)
Definition is_sync_event (ev : Event) : bool :=
  match ev with
  | Synchronize _ => true
  | Remote _ (UploadAttachment _ _ _ _) | Remote _ (UpdatePage _ _) => true
  | _ => false
  end.

Definition is_upload (call : Call) : bool :=
  match call with UploadAttachment _ _ _ _ => true | _ => false end.

(** ** The engine *)

Section Engine.
Context `{Collaborators}.

(** Everything a run can read or change: the local files, the wiki, the
    session's current space key ([self.api.space_key]) and the history. *)
Record World := mkWorld {
  files : gmap Path str;
  wiki : Wiki;
  session_space : str;
  history : list Event;
}.

(** A method call either returns or raises; both keep the effects made
    so far. *)
Inductive Outcome (A : Type) :=
| Returned (a : A) (w : World)
| Raised (e : Exception) (w : World).
Global Arguments Returned {A} a w.
Global Arguments Raised {A} e w.

Definition world_of {A} (o : Outcome A) : World :=
  match o with Returned _ w | Raised _ w => w end.

Definition M (A : Type) : Type := World → Outcome A.

Global Instance M_ret : MRet M := λ A a w, Returned a w.

Global Instance M_bind : MBind M := λ A B f m w,
  match m w with
  | Returned a w' => f a w'
  | Raised e w' => Raised e w'
  end.

Definition raise {A} (e : Exception) : M A := λ w, Raised e w.

(** [for x in l: body(x)] *)
Fixpoint for_each {A} (l : list A) (body : A → M unit) : M unit :=
  match l with
  | [] => mret tt
  | x :: l' => body x ≫= λ _, for_each l' body
  end.

Definition record (ev : Event) : M unit := λ w,
  Returned tt (mkWorld (files w) (wiki w) (session_space w) (history w ++ [ev])).

(** [open(path, "r").read()] *)
Definition read_text (path : Path) : M str := λ w,
  match files w !! path with
  | Some text => Returned text w
  | None => Raised (FileNotFoundError path) w
  end.

(** [open(path, "w").write(text)] *)
Definition write_text (path : Path) (text : str) : M unit := λ w,
  Returned tt (mkWorld (<[path := text]> (files w)) (wiki w)
                       (session_space w) (history w)).

(** [self.api.space_key] *)
Definition api_space_key : M str := λ w, Returned (session_space w) w.

(** A call through [self.api]: recorded, then answered by the wiki. *)
Definition remote {A} (call : Call)
    (op : str → Wiki → (str + A) * Wiki) : M A := λ w,
  let h := history w ++ [Remote (session_space w) call] in
  match op (session_space w) (wiki w) with
  | (inr a, r) => Returned a (mkWorld (files w) r (session_space w) h)
  | (inl detail, r) =>
      Raised (RemoteError detail) (mkWorld (files w) r (session_space w) h)
  end.

Definition set_space (key : str) (w : World) : World :=
  mkWorld (files w) (wiki w) key (history w).

(** Modelled from the spec: [ConfluenceSession.switch_space], which is not
    among the sources. The spec gives it as a scoped context: the body
    runs against the given space, and the previous space is back in place
    when the scope is left. *)
Definition switch_space {A} (new_space_key : str) (body : M A) : M A := λ w,
  let old_space_key := session_space w in
  match body (set_space new_space_key w) with
  | Returned a w' => Returned a (set_space old_space_key w')
  | Raised e w' => Raised e (set_space old_space_key w')
  end.

(** Modelled from the spec: [converter.read_qualified_id], which is not
    among the sources: the qualified identity embedded in the file at the
    path, if any. *)
Definition read_qualified_id (path : Path) : M (option ConfluenceQualifiedID.t) :=
  text ← read_text path; mret (extract_qualified_id text).1.

(** [Application._update_markdown] *)
Definition _update_markdown (path : Path) (document page_id : str)
    (space_key : option str) : M unit :=
  write_text path (updated_markdown document page_id space_key).

(** [Application._create_page] *)
Definition _create_page (absolute_path : Path) (document : str)
    (title : option str) (parent_id : ConfluenceQualifiedID.t)
  : M ConfluencePage.t :=
  let title := match title with None => stem absolute_path | Some t => t end in
  confluence_page ←
    remote (GetOrCreatePage title (ConfluenceQualifiedID.page_id parent_id)
              (ConfluenceQualifiedID.space_key parent_id))
           (get_or_create_page title (ConfluenceQualifiedID.page_id parent_id)
              (ConfluenceQualifiedID.space_key parent_id));
  _update_markdown absolute_path document
    (ConfluencePage.id confluence_page)
    (ConfluencePage.space_key confluence_page);;
  mret confluence_page.

(** The title assignment of [_get_or_create_page]: the front-matter's
    [title] when it loads as a mapping whose [title] is a string. *)
Definition frontmatter_title (title frontmatter : option str) : M (option str) :=
  match title, frontmatter with
  | None, Some fm =>
      match safe_load fm with
      | None => raise YAMLError
      | Some (YMap items) =>
          match yaml_get (lit "title") items with
          | Some (YStr property_title) => mret (Some property_title)
          | _ => mret None
          end
      | Some _ => mret None
      end
  | _, _ => mret title
  end.

(** [Application._get_or_create_page] *)
Definition _get_or_create_page (absolute_path : Path)
    (parent_id : option ConfluenceQualifiedID.t) (title : option str)
  : M ConfluencePageMetadata.t :=
  record (Resolve absolute_path parent_id);;
  document ← read_text absolute_path;
  let '(qualified_id, document) := extract_qualified_id document in
  let '(frontmatter, document) := extract_frontmatter document in
  confluence_page ←
    match qualified_id with
    | Some q =>
        remote (GetPage (ConfluenceQualifiedID.page_id q)
                  (ConfluenceQualifiedID.space_key q))
               (get_page (ConfluenceQualifiedID.page_id q)
                  (ConfluenceQualifiedID.space_key q))
    | None =>
        match parent_id with
        | None => raise (ValueError absolute_path)
        | Some parent =>
            title ← frontmatter_title title frontmatter;
            _create_page absolute_path document title parent
        end
    end;
  space_key ← api_space_key;
  mret (ConfluencePageMetadata.mk api_domain api_base_path
          (ConfluencePage.id confluence_page)
          (or_else (ConfluencePage.space_key confluence_page) space_key)
          (or_else (ConfluencePage.title confluence_page) [])).

(** The list [files] that the scan of [_index_directory] builds: the
    entries the matcher keeps that are files, in listing order. *)
Definition scanned_files (local_dir : Path) (entries : list Entry) : list Path :=
  map (λ e, path_join local_dir (entry_name e))
      (List.filter (λ e, negb (is_excluded local_dir (entry_name e) (is_dir e))
                         && is_file e) entries).

(** The choice of [parent_doc]. *)
Definition parent_document (local_dir : Path) (files : list Path) : option Path :=
  if bool_decide (path_join local_dir (lit "index.md") ∈ files)
  then Some (path_join local_dir (lit "index.md"))
  else if bool_decide (path_join local_dir (lit "README.md") ∈ files)
  then Some (path_join local_dir (lit "README.md"))
  else None.

(** The loop [for doc in files] of [_index_directory]. *)
Fixpoint index_files (files : list Path)
    (parent_id : option ConfluenceQualifiedID.t) (page_metadata : Dict) : M Dict :=
  match files with
  | [] => mret page_metadata
  | doc :: files' =>
      metadata ← _get_or_create_page doc parent_id None;
      index_files files' parent_id (dict_set doc metadata page_metadata)
  end.

(** The first half of [_index_directory]: the representative document, if
    there is one, then the plain files. It returns [parent_id] with the
    dict. *)
Definition index_documents (local_dir : Path) (entries : list Entry)
    (root_id : option ConfluenceQualifiedID.t) (page_metadata : Dict)
  : M (option ConfluenceQualifiedID.t * Dict) :=
  let files := scanned_files local_dir entries in
  '(files, parent_id, page_metadata) ←
    match parent_document local_dir files with
    | Some parent_doc =>
        let files := list_remove parent_doc files in
        metadata ← _get_or_create_page parent_doc root_id None;
        let page_metadata := dict_set parent_doc metadata page_metadata in
        embedded ← read_qualified_id parent_doc;
        mret (files, match embedded with Some q => Some q | None => root_id end,
              page_metadata)
    | None => mret (files, root_id, page_metadata)
    end;
  page_metadata ← index_files files parent_id page_metadata;
  mret (parent_id, page_metadata).

(** [Application._index_directory]. [directory] is the directory at
    [local_dir] as [os.scandir] finds it; the dict that the source fills
    in place is passed through. The last loop visits the kept directories
    of the listing in order, as [for directory in directories] does. *)
Fixpoint _index_directory (local_dir : Path) (directory : Entry)
    (root_id : option ConfluenceQualifiedID.t) (page_metadata : Dict)
    {struct directory} : M Dict :=
  match directory with
  | Directory _ entries =>
      '(parent_id, page_metadata) ←
        index_documents local_dir entries root_id page_metadata;
      (fix index_directories (scan : list Entry) (page_metadata : Dict)
         : M Dict :=
         match scan with
         | [] => mret page_metadata
         | e :: scan' =>
             if negb (is_excluded local_dir (entry_name e) (is_dir e)) && is_dir e
             then
               page_metadata ←
                 _index_directory (path_join local_dir (entry_name e)) e
                   parent_id page_metadata;
               index_directories scan' page_metadata
             else index_directories scan' page_metadata
         end) entries page_metadata
  | _ => raise (NotADirectoryError local_dir)
  end.

(** The loop [for directory in directories] on its own. *)
Fixpoint index_directories (local_dir : Path)
    (parent_id : option ConfluenceQualifiedID.t) (scan : list Entry)
    (page_metadata : Dict) : M Dict :=
  match scan with
  | [] => mret page_metadata
  | e :: scan' =>
      if negb (is_excluded local_dir (entry_name e) (is_dir e)) && is_dir e
      then
        page_metadata ←
          _index_directory (path_join local_dir (entry_name e)) e
            parent_id page_metadata;
        index_directories local_dir parent_id scan' page_metadata
      else index_directories local_dir parent_id scan' page_metadata
  end.

(** The two upload loops and the content update of
    [Application._update_document]. *)
Definition _update_document (document : ConfluenceDocument.t) (base_path : Path)
  : M unit :=
  let page_id := ConfluenceQualifiedID.page_id (ConfluenceDocument.id document) in
  for_each (ConfluenceDocument.images document) (λ image,
    remote (UploadAttachment page_id (path_join base_path image)
              (attachment_name image) None)
           (upload_attachment page_id (path_join base_path image)
              (attachment_name image) None));;
  for_each (ConfluenceDocument.embedded_images document) (λ '(image, data),
    remote (UploadAttachment page_id (path_join [lit "EMB"] image)
              (attachment_name image) (Some data))
           (upload_attachment page_id (path_join [lit "EMB"] image)
              (attachment_name image) (Some data)));;
  let content := ConfluenceDocument.xhtml document in
  remote (UpdatePage page_id content) (update_page page_id content).

(** [ConfluenceDocument(page_path, self.options, page_metadata)] *)
Definition new_document (page_path : Path) (page_metadata : Dict)
  : M ConfluenceDocument.t := λ w,
  match load_document page_path page_metadata (files w) with
  | inr document => Returned document w
  | inl detail => Raised (DocumentError detail) w
  end.

(** [Application._synchronize_page] *)
Definition _synchronize_page (page_path : Path) (page_metadata : Dict) : M unit :=
  let base_path := path_parent page_path in
  record (Synchronize page_path);;
  document ← new_document page_path page_metadata;
  match ConfluenceQualifiedID.space_key (ConfluenceDocument.id document) with
  | Some (c :: k) => switch_space (c :: k) (_update_document document base_path)
  | _ => _update_document document base_path
  end.

(** [path.resolve(True)]: the path made absolute, with its symbolic links
    followed, and [FileNotFoundError] when the path does not exist. What
    the file system makes of a path is given by [resolved], [None] for a
    path that does not exist. *)
Definition resolve_strict (resolved : Path → option Path) (path : Path)
  : M Path :=
  match resolved path with
  | Some absolute => mret absolute
  | None => raise (FileNotFoundError path)
  end.

(** [Application.synchronize_page] *)
Definition synchronize_page (resolved : Path → option Path) (page_path : Path)
  : M unit :=
  page_path ← resolve_strict resolved page_path;
  _synchronize_page page_path [].

(** [Application.synchronize_directory] *)
Definition synchronize_directory (local_dir : Path) (directory : Entry)
  : M unit :=
  space_key ← api_space_key;
  let root_id :=
    match root_page_id with
    | Some (c :: k) => Some (ConfluenceQualifiedID.mk (c :: k) (Some space_key))
    | _ => None
    end in
  page_metadata ← _index_directory local_dir directory root_id [];
  for_each (dict_keys page_metadata) (λ page_path,
    _synchronize_page page_path page_metadata).

(** The remote calls that [_update_document] has to make for a document,
    in order. *)
Definition document_calls (document : ConfluenceDocument.t) (base_path : Path)
  : list Call :=
  let page_id := ConfluenceQualifiedID.page_id (ConfluenceDocument.id document) in
  map (λ image, UploadAttachment page_id (path_join base_path image)
                  (attachment_name image) None)
      (ConfluenceDocument.images document)
  ++ map (λ '(image, data),
            UploadAttachment page_id (path_join [lit "EMB"] image)
              (attachment_name image) (Some data))
         (ConfluenceDocument.embedded_images document)
  ++ [UpdatePage page_id (ConfluenceDocument.xhtml document)].

(** [w'] is [w] after the remote calls [calls], made in the space [space],
    and nothing else: the files and the session's space are as in [w]. *)
Definition after_calls (space : str) (calls : list Call) (w w' : World) : Prop :=
  files w' = files w ∧
  session_space w' = session_space w ∧
  history w' = history w ++ map (Remote space) calls.

Definition returned {A} (o : Outcome A) : Prop :=
  match o with Returned _ _ => True | Raised _ _ => False end.

(** [w'] is [w] after some indexing: the session's space is as in [w],
    and the history has grown by events of indexing only, whose
    resolutions are [res]. *)
Definition index_trace (w w' : World)
    (res : list (Path * option ConfluenceQualifiedID.t)) : Prop :=
  session_space w' = session_space w ∧
  ∃ added,
    history w' = history w ++ added ∧
    Forall (λ ev, is_index_event ev = true) added ∧
    resolutions added = res.

(** A run of indexing that started with a dict of keys [keys0]: when it
    returns, the keys of its dict are the old keys and the files it
    resolved, each once. *)
Definition index_run {A} (keys_of : A → list Path) (keys0 : list Path)
    (w : World) (o : Outcome A) : Prop :=
  ∃ res,
    index_trace w (world_of o) res ∧
    ∀ a w', o = Returned a w' →
      (NoDup keys0 → NoDup (keys_of a)) ∧
      ∀ p, p ∈ keys_of a ↔ p ∈ keys0 ∨ p ∈ map fst res.

(** [w'] is [w] after some synchronizing: the history has grown by events
    of synchronizing only, and [paths] are the pages they start on. *)
Definition sync_trace (w w' : World) (paths : list Path) : Prop :=
  ∃ added,
    history w' = history w ++ added ∧
    Forall (λ ev, is_sync_event ev = true) added ∧
    synchronized added = paths.

(** A computation that does nothing but make the remote calls of [plan]
    in order, in the session's space, stopping at the first call that
    raises; it returns only after the whole plan. *)
Definition makes (m : M unit) (plan : list Call) : Prop :=
  ∀ w, ∃ calls,
    after_calls (session_space w) calls w (world_of (m w)) ∧
    calls `prefix_of` plan ∧
    (returned (m w) → calls = plan).
End Engine.

(** Induction on a directory tree: a property of a directory may rely on
    the property of every entry of its listing. *)
Fixpoint Entry_tree_ind (P : Entry → Prop)
    (file : ∀ name, P (File name)) (other : ∀ name, P (Other name))
    (dir : ∀ name children, Forall P children → P (Directory name children))
    (e : Entry) : P e :=
  match e with
  | File name => file name
  | Other name => other name
  | Directory name children =>
      dir name children
        ((fix all (l : list Entry) : Forall P l :=
            match l with
            | [] => @List.Forall_nil _ P
            | e' :: l' =>
                @List.Forall_cons _ P e' l' (Entry_tree_ind P file other dir e') (all l')
            end) children)
  end.

(** ** A small wiki to run the engine on *)

(** The position of an item in a list, or the length of the list. *)
Fixpoint position (x : str * str) (l : list (str * str)) : nat :=
  match l with
  | [] => 0
  | y :: l' => if decide (x = y) then 0%nat else S (position x l')
  end.

(** A front-matter reader: the block between the delimiters that the writer
    looks for; the text is handed on whole. *)
Definition demo_frontmatter (text : str) : option str * str :=
  if startswith FM_OPEN text && (0 <=? find FM_CLOSE text 4)
  then (Some (slice_to (find FM_CLOSE text 4 - 4) (slice_from 4 text)), text)
  else (None, text).

(** A loader that knows one shape of mapping, [title: TEXT], and takes
    anything else for a plain scalar. *)
Definition demo_loader (text : str) : option Yaml :=
  match strip_prefix (lit "title: ") text with
  | Some t => Some (YMap [(lit "title", YStr t)])
  | None => Some (YStr text)
  end.

(** The loader on a front-matter it rejects. *)
Definition rejecting_loader (text : str) : option Yaml := None.

(** The wiki is the list of the pages created so far, each a title under a
    parent id; the n-th page made has the id 2, 20, 200, ... and
    get-or-create finds a page again by title and parent. The session
    answers every page in the space asked for. *)
Definition demo (loader : str → option Yaml) : Collaborators := {|
  Wiki := list (str * str);
  api_domain := lit "example.atlassian.net";
  api_base_path := lit "/wiki/";
  root_page_id := Some (lit "1000");
  get_page := λ page_id space_key _ pages,
    (inr (ConfluencePage.mk page_id space_key (Some (lit "fetched"))), pages);
  get_or_create_page := λ title parent_id space_key _ pages,
    (inr (ConfluencePage.mk
            (lit "2" ++ replicate (position (title, parent_id) pages) "0"%char)
            space_key (Some title)),
     if bool_decide ((title, parent_id) ∈ pages) then pages
     else pages ++ [(title, parent_id)]);
  upload_attachment := λ _ _ _ _ _ pages, (inr tt, pages);
  update_page := λ _ _ _ pages, (inr tt, pages);
  extract_frontmatter := demo_frontmatter;
  attachment_name := λ image, image;
  load_document := λ page_path _ files,
    match files !! page_path with
    | None => inl (lit "no such file")
    | Some text =>
        match extract_qualified_id text with
        | (Some q, body) =>
            inr (ConfluenceDocument.mk q [lit "figure.png"]
                   [(lit "inline.png", lit "PNG")] body)
        | (None, _) => inl (lit "no page id")
        end
    end;
  is_excluded := λ _ name _, startswith (lit ".") name;
  safe_load := loader;
|}.

Definition demo_world (H : Collaborators) (wiki0 : @Wiki H)
    (docs : list (Path * str)) : @World H :=
  mkWorld (list_to_map docs) wiki0 (lit "DOCS") [].

(** A tree of documents for the small wiki: a directory with both
    representative names, a plain file, a hidden file, and a subdirectory
    with a representative of its own. *)
Definition demo_docs : Path := [lit "docs"].

Definition demo_tree : Entry :=
  Directory (lit "docs")
    [File (lit "README.md"); File (lit "index.md"); File (lit "notes.md");
     File (lit ".hidden.md");
     Directory (lit "sub") [File (lit "index.md"); File (lit "a.md")]].

Definition demo_files : list (Path * str) :=
  [(demo_docs ++ [lit "index.md"], page_id_comment (lit "1") ++ nl :: lit "top");
   (demo_docs ++ [lit "README.md"], lit "read me");
   (demo_docs ++ [lit "notes.md"], lit "notes");
   (demo_docs ++ [lit "sub"; lit "index.md"],
    page_id_comment (lit "2") ++ nl :: lit "sub");
   (demo_docs ++ [lit "sub"; lit "a.md"], lit "text")].

Definition demo_root : ConfluenceQualifiedID.t :=
  ConfluenceQualifiedID.mk (lit "1000") None.

(** The same collaborators with no root page configured. *)
Definition rootless (D : Collaborators) : Collaborators := {|
  Wiki := @Wiki D;
  api_domain := @api_domain D;
  api_base_path := @api_base_path D;
  root_page_id := None;
  get_page := @get_page D;
  get_or_create_page := @get_or_create_page D;
  upload_attachment := @upload_attachment D;
  update_page := @update_page D;
  extract_frontmatter := @extract_frontmatter D;
  attachment_name := @attachment_name D;
  load_document := @load_document D;
  is_excluded := @is_excluded D;
  safe_load := @safe_load D;
|}.

(** ** The front-matter reader (converter.py) *)

Module converter.

(** A line ends here: nothing follows, or a line break does. *)
Definition at_line_end (s : str) : bool :=
  match s with
  | [] => true
  | c :: _ => bool_decide (c = nl)
  end.

(** The index of the line break in front of the first line [---] of a
    text, where [s] is the text from index [i] on. *)
Fixpoint closing_line (s : str) (i : nat) : option nat :=
  match s with
  | [] => None
  | _ :: s' =>
      if startswith (nl :: lit "---") s && at_line_end (drop 4 s)
      then Some i
      else closing_line s' (S i)
  end.

(** Modelled from the spec: [converter.extract_frontmatter], which is not
    among the sources. The spec gives the front-matter as a block at the
    start of a document, separate from the body: a line of three dashes,
    the properties, and a closing line of three dashes. The reader answers
    the properties and, as the parser of the identity marker does, the
    text with what it has read taken out, which is the text that
    [_get_or_create_page] goes on with as the document. A text that does
    not start with such a block is answered whole. *)
Definition extract_frontmatter (text : str) : option str * str :=
  if startswith FM_OPEN text then
    match closing_line (drop 3 text) 3 with
    | Some i => (Some (drop 3 (take (S i) text)), drop (i + 4) text)
    | None => (None, text)
    end
  else (None, text).

End converter.

(** The same collaborators with the front-matter reader of converter.py. *)
Definition with_converter (D : Collaborators) : Collaborators := {|
  Wiki := @Wiki D;
  api_domain := @api_domain D;
  api_base_path := @api_base_path D;
  root_page_id := @root_page_id D;
  get_page := @get_page D;
  get_or_create_page := @get_or_create_page D;
  upload_attachment := @upload_attachment D;
  update_page := @update_page D;
  extract_frontmatter := converter.extract_frontmatter;
  attachment_name := @attachment_name D;
  load_document := @load_document D;
  is_excluded := @is_excluded D;
  safe_load := @safe_load D;
|}.

(** ** Reading a rewritten file

    [updated] is [document] with the marker lines put in between two of its
    lines and nothing else changed. *)
Definition only_markers_added (document updated page_id : str)
    (space_key : option str) : Prop :=
  ∃ before after,
    lines document = before ++ after ∧
    lines updated = before ++ marker_entries page_id space_key ++ after.





(** The remote page creations among the events of a history: the calls of
    the get-or-create operation. *)
Definition is_creation (ev : Event) : bool :=
  match ev with
  | Remote _ (GetOrCreatePage _ _ _) => true
  | _ => false
  end.

Definition creations (h : list Event) : nat := length (List.filter is_creation h).

(** ** The order of a directory walk *)

Section Traversal.
Context `{Collaborators}.

(** An entry that the scan of [_index_directory] puts in [directories]. *)
Definition kept_directory (local_dir : Path) (e : Entry) : bool :=
  negb (is_excluded local_dir (entry_name e) (is_dir e)) && is_dir e.

(** An entry that the scan puts in [files] or in [directories]. *)
Definition kept_entry (local_dir : Path) (e : Entry) : bool :=
  negb (is_excluded local_dir (entry_name e) (is_dir e)) && (is_file e || is_dir e).

(** The documents of one listing in the order [_index_directory] takes
    them: the representative document, then the plain files. *)
Definition documents_in_order (local_dir : Path) (entries : list Entry)
  : list Path :=
  let files := scanned_files local_dir entries in
  match parent_document local_dir files with
  | Some parent_doc => parent_doc :: list_remove parent_doc files
  | None => files
  end.

(** The documents of a directory tree in the order of the walk: those of
    the listing, then those of each kept directory in turn. *)
Fixpoint traversal (local_dir : Path) (directory : Entry) : list Path :=
  match directory with
  | Directory _ entries =>
      documents_in_order local_dir entries ++
      (fix below (scan : list Entry) : list Path :=
         match scan with
         | [] => []
         | e :: scan' =>
             if kept_directory local_dir e
             then traversal (path_join local_dir (entry_name e)) e ++ below scan'
             else below scan'
         end) entries
  | _ => []
  end.

Fixpoint traversal_below (local_dir : Path) (scan : list Entry) : list Path :=
  match scan with
  | [] => []
  | e :: scan' =>
      if kept_directory local_dir e
      then traversal (path_join local_dir (entry_name e)) e
           ++ traversal_below local_dir scan'
      else traversal_below local_dir scan'
  end.

(** The keys of a dict after the assignments [d[p] = ...] for the paths of
    [paths] in order: a new key goes to the end, a key already there keeps
    its place. *)
Definition keys_after (keys0 paths : list Path) : list Path :=
  foldl (λ keys p, if bool_decide (p ∈ keys) then keys else keys ++ [p])
        keys0 paths.

(** Every file that carries an identity marker in [w] is the same in [w']. *)
Definition keeps_marked (w w' : World) : Prop :=
  ∀ p text q,
    files w !! p = Some text →
    (extract_qualified_id text).1 = Some q →
    files w' !! p = Some text.

(** A run of indexing that resolves the files of [plan] in order, stopping
    where a resolution raises: it touches no file it did not resolve and no
    file that carries a marker, and when it returns the whole plan is
    resolved and entered in the dict. *)
Definition follows {A} (keys_of : A → list Path) (keys0 plan : list Path)
    (w : World) (o : Outcome A) : Prop :=
  ∃ res,
    index_trace w (world_of o) res ∧
    map fst res `prefix_of` plan ∧
    (∀ p, p ∉ map fst res → files (world_of o) !! p = files w !! p) ∧
    keeps_marked w (world_of o) ∧
    ∀ a w', o = Returned a w' →
      map fst res = plan ∧ keys_of a = keys_after keys0 plan.
End Traversal.

(** * Properties *)

(** ** The definitions on small inputs *)

Example find_closing_delimiter :
  find FM_CLOSE (FM_OPEN ++ lit "title: x" ++ FM_CLOSE ++ lit "body") 4 = 12.
Proof. reflexivity. Qed.

Example find_misses_before_start :
  find FM_CLOSE (FM_OPEN ++ lit "---" ++ [nl] ++ lit "body") 4 = -1.
Proof. reflexivity. Qed.

Example slice_clamps :
  slice_to 3 (lit "ab") = lit "ab" ∧ slice_from 3 (lit "ab") = [] ∧
  slice_to (-1) (lit "abc") = lit "ab" ∧ slice_from (-1) (lit "abc") = lit "c".
Proof. repeat split; reflexivity. Qed.

Example stem_of_names :
  stem [lit "docs"; lit "guide.md"] = lit "guide" ∧
  stem [lit "docs"; lit "archive.tar.gz"] = lit "archive.tar" ∧
  stem [lit "docs"; lit ".hidden"] = lit ".hidden" ∧
  stem [lit "docs"; lit "notes."] = lit "notes.".
Proof. repeat split; reflexivity. Qed.

Example updated_markdown_prepends :
  updated_markdown (lit "hello") (lit "1") (Some (lit "DOCS"))
  = page_id_comment (lit "1") ++ [nl] ++ space_key_comment (lit "DOCS")
    ++ [nl] ++ lit "hello".
Proof. reflexivity. Qed.

Example updated_markdown_empty_space_key :
  updated_markdown (lit "hello") (lit "1") (Some [])
  = page_id_comment (lit "1") ++ [nl] ++ lit "hello".
Proof. reflexivity. Qed.

Example extract_qualified_id_both :
  extract_qualified_id
    (lit "intro " ++ page_id_comment (lit "42") ++ [nl]
     ++ space_key_comment (lit "DOCS") ++ [nl] ++ lit "body")
  = (Some (ConfluenceQualifiedID.mk (lit "42") (Some (lit "DOCS"))),
     lit "intro " ++ [nl] ++ [nl] ++ lit "body").
Proof. reflexivity. Qed.

Example extract_qualified_id_space_key_alone :
  extract_qualified_id (space_key_comment (lit "DOCS") ++ [nl] ++ lit "body")
  = (None, space_key_comment (lit "DOCS") ++ [nl] ++ lit "body").
Proof. reflexivity. Qed.

Example parent_document_is_case_sensitive :
  parent_document demo_docs
    (scanned_files (H := demo demo_loader) demo_docs
       [File (lit "Index.md"); File (lit "readme.md")])
  = None.
Proof. reflexivity. Qed.

Example parent_document_falls_back_to_readme :
  parent_document demo_docs
    (scanned_files (H := demo demo_loader) demo_docs
       [File (lit "notes.md"); File (lit "README.md")])
  = Some (path_join demo_docs (lit "README.md")).
Proof. reflexivity. Qed.

(** ** Python strings *)

Lemma startswith_app (p s : str) : startswith p (p ++ s) = true.
Proof.
  induction p as [|a p IH]; simpl; [done|].
  by rewrite decide_True.
Qed.

Lemma startswith_inv (p s : str) :
  startswith p s = true → ∃ r, s = p ++ r.
Proof.
  revert s. induction p as [|a p IH]; intros s Hs; simpl in *.
  - by exists s.
  - destruct s as [|b s]; [done|].
    destruct (decide (a = b)) as [->|]; [|done].
    destruct (IH _ Hs) as [r ->]. by exists r.
Qed.

Lemma find_from_absent (sub s : str) (i : nat) :
  (∀ k, startswith sub (drop k s) = false) → find_from sub s i = -1.
Proof.
  revert i. induction s as [|a s IH]; intros i Hno;
    pose proof (Hno 0%nat) as H0; rewrite drop_0 in H0;
    cbn [find_from]; rewrite H0; [done|].
  apply IH. intros k. apply (Hno (S k)).
Qed.

Lemma find_from_first (sub pre s : str) (i : nat) :
  startswith sub s = true →
  (∀ k, (k < length pre)%nat → startswith sub (drop k pre ++ s) = false) →
  find_from sub (pre ++ s) i = Z.of_nat (i + length pre).
Proof.
  intros Hs. revert i. induction pre as [|a pre IH]; intros i Hno.
  - rewrite app_nil_l. destruct s; cbn [find_from]; rewrite Hs; f_equal;
      simpl; lia.
  - pose proof (Hno 0%nat ltac:(simpl; lia)) as H0. rewrite drop_0 in H0.
    rewrite <- app_comm_cons. cbn [find_from]. rewrite app_comm_cons, H0, IH.
    + f_equal. simpl. lia.
    + intros k Hk. apply (Hno (S k)). simpl. lia.
Qed.

Lemma slice_index_nat (k n : nat) :
  (k ≤ n)%nat → slice_index (Z.of_nat k) n = k.
Proof.
  intros Hk. unfold slice_index.
  destruct (Z.ltb_spec (Z.of_nat k) 0); lia.
Qed.

Lemma join_markers_tail (page_id : str) (space_key : option str) (tail : str) :
  join [nl] (marker_entries page_id space_key ++ [tail])
  = join [nl] (marker_entries page_id space_key) ++ [nl] ++ tail.
Proof.
  unfold marker_entries.
  destruct space_key as [[|c k]|]; cbn [truthy app join]; try done.
  by rewrite <- !app_assoc.
Qed.

(** The text written when the document does not open with [---]: the
    markers are put in front. *)
Lemma updated_markdown_plain (document page_id : str) (space_key : option str) :
  startswith FM_OPEN document = false →
  updated_markdown document page_id space_key
  = join [nl] (marker_entries page_id space_key) ++ [nl] ++ document.
Proof.
  intros Hno. unfold updated_markdown, markdown_content, split_index.
  rewrite Hno, app_nil_l, join_markers_tail.
  unfold slice_from. by rewrite (slice_index_nat 0) by lia.
Qed.

(** The text written when the document opens with [---]: the markers go in
    at the split index. *)
Lemma updated_markdown_split (document page_id : str) (space_key : option str) :
  startswith FM_OPEN document = true →
  updated_markdown document page_id space_key
  = slice_to (split_index document) document ++ [nl]
    ++ join [nl] (marker_entries page_id space_key) ++ [nl]
    ++ slice_from (split_index document) document.
Proof.
  intros Hfm. unfold updated_markdown, markdown_content.
  rewrite Hfm. rewrite <- join_markers_tail.
  unfold marker_entries. reflexivity.
Qed.

(** ** Local State Writer *)

Lemma split_index_closed (props rest : str) :
  (∀ k, (k < length props)%nat →
        startswith FM_CLOSE (drop k props ++ FM_CLOSE ++ rest) = false) →
  split_index (FM_OPEN ++ props ++ FM_CLOSE ++ rest)
  = Z.of_nat (length (FM_OPEN ++ props ++ nl :: lit "---")).
Proof.
  intros Hfirst. unfold split_index. rewrite startswith_app.
  unfold find. rewrite decide_True by (rewrite length_app; simpl; lia).
  change (drop 4 (FM_OPEN ++ ?x)) with x.
  rewrite find_from_first; [|apply startswith_app|done].
  rewrite !length_app. simpl. lia.
Qed.

(** The writer on a text that it is given with its front-matter block:
    when the text opens with [---], the properties and the first closing
    [---] line, the text written is that block as it was, then the marker
    line(s) and one empty line, then the rest of the text as it was. *)
Lemma front_matter_kept (props rest page_id : str) (space_key : option str) :
  (∀ k, (k < length props)%nat →
        startswith FM_CLOSE (drop k props ++ FM_CLOSE ++ rest) = false) →
  updated_markdown (FM_OPEN ++ props ++ FM_CLOSE ++ rest) page_id space_key
  = FM_OPEN ++ props ++ FM_CLOSE
    ++ join [nl] (marker_entries page_id space_key) ++ [nl; nl] ++ rest.
Proof.
  intros Hfirst.
  rewrite updated_markdown_split by apply startswith_app.
  rewrite split_index_closed by done.
  unfold slice_to, slice_from.
  assert (FM_OPEN ++ props ++ FM_CLOSE ++ rest
          = (FM_OPEN ++ props ++ nl :: lit "---") ++ nl :: rest) as ->.
  { unfold FM_CLOSE. by rewrite <- !app_assoc. }
  rewrite slice_index_nat by (rewrite (length_app (_ ++ _)); lia).
  rewrite take_app_length, drop_app_length.
  unfold FM_CLOSE. rewrite <- !app_assoc. reflexivity.
Qed.

Lemma front_matter_kept_witness :
  updated_markdown (FM_OPEN ++ lit "title: x" ++ FM_CLOSE ++ lit "body")
    (lit "1") (Some (lit "DOCS"))
  = FM_OPEN ++ lit "title: x" ++ FM_CLOSE
    ++ join [nl] (marker_entries (lit "1") (Some (lit "DOCS")))
    ++ [nl; nl] ++ lit "body".
Proof.
  apply (front_matter_kept (lit "title: x") (lit "body")).
  intros k Hk. do 8 (destruct k as [|k]; [reflexivity|]).
  simpl in Hk. lia.
Defined.

(** On a text with a closed front-matter block, what the writer makes is
    not the text with only the marker line put in: it has one more line. *)
Lemma front_matter_blank_line :
  let document := FM_OPEN ++ lit "title: x" ++ FM_CLOSE ++ lit "body" in
  startswith FM_OPEN document = true ∧
  find FM_CLOSE document 4 = 12 ∧
  ¬ only_markers_added document (updated_markdown document (lit "1") None)
      (lit "1") None.
Proof.
  intros document. split; [reflexivity|]. split; [reflexivity|].
  intros (before & after & Hdoc & Hnew).
  apply (f_equal length) in Hdoc, Hnew.
  rewrite !length_app in Hdoc, Hnew.
  assert (length (lines document) = 4%nat) as Hl1 by reflexivity.
  assert (length (lines (updated_markdown document (lit "1") None)) = 6%nat)
    as Hl2 by reflexivity.
  rewrite Hl1 in Hdoc. rewrite Hl2 in Hnew. simpl in Hnew. lia.
Qed.

(** Two documents on which the search from index 4 finds no closing
    delimiter: a block whose closing line ends the file, and a block with
    no properties. *)
Example front_matter_closed_at_end_of_file :
  updated_markdown (FM_OPEN ++ lit "title: x" ++ nl :: lit "---") (lit "1") None
  = lit "---" ++ [nl] ++ page_id_comment (lit "1") ++ [nl]
    ++ nl :: lit "title: x" ++ nl :: lit "---".
Proof. reflexivity. Qed.

Example front_matter_without_properties :
  updated_markdown (FM_OPEN ++ lit "---" ++ nl :: lit "body") (lit "1") None
  = lit "---" ++ [nl] ++ page_id_comment (lit "1") ++ [nl]
    ++ nl :: lit "---" ++ nl :: lit "body".
Proof. reflexivity. Qed.

(** C2 does not hold of the code.  [_get_or_create_page] hands the writer
    the text that [extract_frontmatter] answers (l.162 binds it to
    [document], l.183 and l.210 pass it on), and that text no longer has
    the front-matter block: although [_update_markdown] looks for a block
    to put the markers after, none reaches it.  On the markerless file
    [---\ntitle: x\n---\nbody] the resolver returns, and the file it has
    written is the marker line, an empty line and [body]: the opening
    line, the property and the closing line are gone. *)
Theorem front_matter_lost_on_rewrite :
  let D := with_converter (demo demo_loader) in
  let path := demo_docs ++ [lit "guide.md"] in
  let text := FM_OPEN ++ lit "title: x" ++ FM_CLOSE ++ lit "body" in
  let w := demo_world D [] [(path, text)] in
  let o := _get_or_create_page (H := D) path (Some demo_root) None w in
  extract_qualified_id text = (None, text) ∧
  converter.extract_frontmatter text
  = (Some (nl :: lit "title: x" ++ [nl]), nl :: lit "body") ∧
  returned o ∧
  files (world_of o) !! path
  = Some (page_id_comment (lit "2") ++ [nl; nl] ++ lit "body") ∧
  files (world_of o) !! path
  ≠ Some (FM_OPEN ++ lit "title: x" ++ FM_CLOSE
          ++ page_id_comment (lit "2") ++ nl :: lit "body").
Proof.
  intros D path text w o.
  split; [reflexivity|]. split; [reflexivity|].
  assert (files (world_of o) !! path
          = Some (page_id_comment (lit "2") ++ [nl; nl] ++ lit "body")) as Hfile
    by (vm_compute; reflexivity).
  split; [by vm_compute|]. split; [exact Hfile|].
  rewrite Hfile. discriminate.
Qed.

(** C10: a document that opens with the line [---] and has no closing
    delimiter anywhere still takes the front-matter branch; the search
    answers -1, the split index is 3, and the markers go in after the first
    three characters, not in front of the text. *)
Theorem unterminated_front_matter (document page_id : str)
    (space_key : option str) :
  startswith FM_OPEN document = true →
  (∀ k, startswith FM_CLOSE (drop k document) = false) →
  find FM_CLOSE document 4 = -1 ∧
  split_index document = 3 ∧
  document = lit "---" ++ drop 3 document ∧
  updated_markdown document page_id space_key
  = lit "---" ++ [nl] ++ join [nl] (marker_entries page_id space_key)
    ++ [nl] ++ drop 3 document ∧
  updated_markdown document page_id space_key
  ≠ join [nl] (marker_entries page_id space_key) ++ [nl] ++ document.
Proof.
  intros Hopen Hno.
  destruct (startswith_inv _ _ Hopen) as [r Hr].
  assert (find FM_CLOSE document 4 = -1) as Hfind.
  { unfold find. rewrite decide_True by (subst; simpl; lia).
    apply find_from_absent. intros k. rewrite drop_drop. apply Hno. }
  assert (split_index document = 3) as Hindex.
  { unfold split_index. rewrite Hopen, Hfind. reflexivity. }
  assert (updated_markdown document page_id space_key
          = lit "---" ++ [nl] ++ join [nl] (marker_entries page_id space_key)
            ++ [nl] ++ drop 3 document) as Hnew.
  { rewrite updated_markdown_split, Hindex by done.
    unfold slice_to, slice_from.
    rewrite (slice_index_nat 3) by (subst; simpl; lia).
    subst document. reflexivity. }
  repeat split; try done.
  - subst document. reflexivity.
  - rewrite Hnew. unfold marker_entries, page_id_comment.
    destruct space_key as [[|c k]|]; simpl; discriminate.
Qed.

Lemma unterminated_front_matter_witness :
  let document := FM_OPEN ++ lit "hello" in
  find FM_CLOSE document 4 = -1 ∧
  updated_markdown document (lit "1") None
  = lit "---" ++ [nl] ++ page_id_comment (lit "1") ++ [nl] ++ nl :: lit "hello".
Proof.
  intros document.
  assert (∀ k, startswith FM_CLOSE (drop k document) = false) as Hno.
  { intros k. do 10 (destruct k as [|k]; [reflexivity|]). reflexivity. }
  destruct (unterminated_front_matter document (lit "1") None eq_refl Hno)
    as (Hfind & _ & _ & Hnew & _).
  split; [exact Hfind|exact Hnew].
Defined.

(** ** Identity Resolver *)

Section Resolver.
Context `{Collaborators}.

Local Abbreviation QID := ConfluenceQualifiedID.t.

(** The resolver on a file that carries an identity marker: one
    [get_page] call, and the file stays as it is. *)
Lemma resolve_marked (absolute_path : Path) (parent_id : option QID)
    (title : option str) (w : World) (text : str) (q : QID) :
  files w !! absolute_path = Some text →
  (extract_qualified_id text).1 = Some q →
  let w' := world_of (_get_or_create_page absolute_path parent_id title w) in
  history w' = history w ++
    [Resolve absolute_path parent_id;
     Remote (session_space w)
       (GetPage (ConfluenceQualifiedID.page_id q)
                (ConfluenceQualifiedID.space_key q))] ∧
  files w' = files w ∧
  session_space w' = session_space w.
Proof.
  intros Hfile Hq. unfold _get_or_create_page.
  unfold mbind, M_bind, record, read_text, remote, api_space_key, mret, M_ret.
  simpl. rewrite Hfile.
  destruct (extract_qualified_id text) as [qid body]. simpl in Hq. subst qid.
  destruct (extract_frontmatter body) as [fm body'].
  destruct (get_page _ _ _ _) as [[detail|page] r]; simpl;
    by rewrite <- app_assoc.
Qed.

(** C5: the resolver raises the error that names the file exactly when
    the document has no identity marker and no parent identity is given;
    with a marker it fetches the page by that identity and creates
    nothing, whatever the parent argument. *)
Theorem resolver_failure (absolute_path : Path) (parent_id : option QID)
    (title : option str) (w : World) (text : str) :
  files w !! absolute_path = Some text →
  ((∃ w', _get_or_create_page absolute_path parent_id title w
          = Raised (ValueError absolute_path) w')
   ↔ (extract_qualified_id text).1 = None ∧ parent_id = None) ∧
  (∀ q, (extract_qualified_id text).1 = Some q →
     let w' := world_of (_get_or_create_page absolute_path parent_id title w) in
     history w' = history w ++
       [Resolve absolute_path parent_id;
        Remote (session_space w)
          (GetPage (ConfluenceQualifiedID.page_id q)
                   (ConfluenceQualifiedID.space_key q))] ∧
     files w' = files w).
Proof.
  intros Hfile. split.
  - unfold _get_or_create_page, _create_page, frontmatter_title, _update_markdown.
    unfold mbind, M_bind, record, read_text, write_text, remote,
      api_space_key, raise, mret, M_ret.
    simpl. rewrite Hfile.
    destruct (extract_qualified_id text) as [qid body]. simpl.
    destruct (extract_frontmatter body) as [fm body'].
    split.
    + intros [w' Hraised]. repeat case_match; simplify_eq; done.
    + intros [-> ->]. eauto.
  - intros q Hq. by destruct (resolve_marked absolute_path parent_id title
                                w text q Hfile Hq) as (? & ? & ?).
Qed.

(** C6, as the code has it: a front-matter that the loader turns into
    something other than a key-value map does not make the resolver
    fail; the page is asked for under the file's base name without its
    extension. *)
Theorem unmapped_front_matter_tolerated (absolute_path : Path) (parent : QID)
    (w : World) (text fm body : str) (v : Yaml)
    (page : ConfluencePage.t) (wiki' : Wiki) :
  files w !! absolute_path = Some text →
  (extract_qualified_id text).1 = None →
  extract_frontmatter (extract_qualified_id text).2 = (Some fm, body) →
  safe_load fm = Some v →
  (∀ items, v ≠ YMap items) →
  get_or_create_page (stem absolute_path)
    (ConfluenceQualifiedID.page_id parent)
    (ConfluenceQualifiedID.space_key parent) (session_space w) (wiki w)
  = (inr page, wiki') →
  ∃ metadata w',
    _get_or_create_page absolute_path (Some parent) None w
    = Returned metadata w' ∧
    history w' = history w ++
      [Resolve absolute_path (Some parent);
       Remote (session_space w)
         (GetOrCreatePage (stem absolute_path)
            (ConfluenceQualifiedID.page_id parent)
            (ConfluenceQualifiedID.space_key parent))].
Proof.
  intros Hfile Hq Hfm Hload Hv Hpage.
  unfold _get_or_create_page, _create_page, frontmatter_title, _update_markdown.
  unfold mbind, M_bind, record, read_text, write_text, remote,
    api_space_key, raise, mret, M_ret.
  simpl. rewrite Hfile.
  destruct (extract_qualified_id text) as [qid text']. simpl in *. subst qid.
  rewrite Hfm, Hload.
  destruct v as [s|items|]; [|by destruct (Hv items)|];
    simpl; rewrite Hpage; simpl; do 2 eexists; (split; [reflexivity|]);
    simpl; by rewrite <- app_assoc.
Qed.
End Resolver.

(** ** The identity marker parser reads back what the writer wrote *)












Lemma extract_comment_none_inv (key : str) (c : ascii) (s : str) :
  (extract_comment key (c :: s)).1 = None →
  match_comment key (c :: s) = None ∧ (extract_comment key s).1 = None.
Proof.
  cbn [extract_comment].
  destruct (match_comment key (c :: s)) as [[v r]|]; [done|].
  by destruct (extract_comment key s).
Qed.

Lemma extract_comment_suffix (key a b : str) :
  (extract_comment key (a ++ b)).1 = None → (extract_comment key b).1 = None.
Proof.
  induction a as [|c a IH]; [done|]. rewrite <- app_comm_cons.
  intros [_ Hn]%extract_comment_none_inv. by apply IH.
Qed.

Lemma extract_comment_none_text (key s : str) :
  (extract_comment key s).1 = None → (extract_comment key s).2 = s.
Proof.
  induction s as [|c s IH]; cbn [extract_comment].
  - by destruct (match_comment key []) as [[v r]|].
  - destruct (match_comment key (c :: s)) as [[v r]|]; [done|].
    destruct (extract_comment key s) as [v t]. cbn [fst snd] in *.
    intros Hv. by rewrite IH.
Qed.

(** A document without a page id comment goes through
    [extract_qualified_id] unchanged. *)
Lemma extract_qualified_id_unmarked (text : str) :
  (extract_qualified_id text).1 = None → (extract_qualified_id text).2 = text.
Proof.
  unfold extract_qualified_id.
  pose proof (extract_comment_none_text PAGE_ID_KEY text) as Hsame.
  destruct (extract_comment PAGE_ID_KEY text) as [[page_id|] t]; cbn [fst snd] in *.
  - by destruct (extract_comment SPACE_KEY_KEY t).
  - intros _. by apply Hsame.
Qed.

(** What is left of an unmarked text after a block is cut from its start is
    unmarked. *)
Lemma lacks_marker_suffix (block rest : str) :
  lacks_marker (block ++ rest) → lacks_marker rest.
Proof. intros [Hpage Hspace]. split; by eapply extract_comment_suffix. Qed.








(** ** Running the resolver twice *)

Section Idempotence.
Context `{Collaborators}.

Local Abbreviation QID := ConfluenceQualifiedID.t.


End Idempotence.

(** ** Page Synchronizer *)

Section Synchronizer.
Context `{Collaborators}.

Lemma bind_unfold {A B} (m : M A) (f : A → M B) (w : World) :
  (m ≫= f) w
  = match m w with
    | Returned a w' => f a w'
    | Raised e w' => Raised e w'
    end.
Proof. reflexivity. Qed.

Lemma remote_unfold {A} (call : Call)
    (op : str → Wiki → (str + A) * Wiki) (w : World) :
  remote call op w
  = let h := history w ++ [Remote (session_space w) call] in
    match op (session_space w) (wiki w) with
    | (inr a, r) => Returned a (mkWorld (files w) r (session_space w) h)
    | (inl detail, r) =>
        Raised (RemoteError detail) (mkWorld (files w) r (session_space w) h)
    end.
Proof. reflexivity. Qed.

Lemma after_calls_nil (space : str) (w : World) : after_calls space [] w w.
Proof. unfold after_calls. by rewrite app_nil_r. Qed.

Lemma makes_remote (call : Call) (op : str → Wiki → (str + unit) * Wiki) :
  makes (remote call op) [call].
Proof.
  intros w. exists [call]. rewrite remote_unfold. cbn zeta.
  by destruct (op (session_space w) (wiki w)) as [[detail|[]] r].
Qed.

Lemma makes_nil : makes (mret tt) [].
Proof. intros w. exists []. split; [apply after_calls_nil|done]. Qed.

Lemma makes_seq (m1 m2 : M unit) (plan1 plan2 : list Call) :
  makes m1 plan1 → makes m2 plan2 → makes (m1 ≫= λ _, m2) (plan1 ++ plan2).
Proof.
  intros H1 H2 w. rewrite bind_unfold.
  destruct (H1 w) as (c1 & (Hf1 & Hs1 & Hh1) & Hp1 & Hall1).
  destruct (m1 w) as [[] w1|e w1]; cbn [world_of] in *.
  - rewrite (Hall1 I) in *. clear Hall1 Hp1.
    destruct (H2 w1) as (c2 & (Hf2 & Hs2 & Hh2) & Hp2 & Hall2).
    exists (plan1 ++ c2). split; [|split].
    + split; [congruence|]. split; [congruence|].
      rewrite Hh2, Hh1, Hs1, fmap_app. by rewrite <- app_assoc.
    + by apply prefix_app.
    + intros Hret. f_equal. by apply Hall2.
  - exists c1. split; [done|]. split; [by apply prefix_app_r|done].
Qed.

Lemma makes_ext (m1 m2 : M unit) (plan : list Call) :
  (∀ w, m1 w = m2 w) → makes m1 plan → makes m2 plan.
Proof. intros Heq Hm w. rewrite <- Heq. apply Hm. Qed.

(** A loop of remote calls makes its calls in order. *)
Lemma makes_for_each {A} (body : A → M unit) (call : A → Call) (l : list A) :
  (∀ x, makes (body x) [call x]) → makes (for_each l body) (map call l).
Proof.
  intros Hbody. induction l as [|x l IH]; [apply makes_nil|].
  apply (makes_seq _ _ [call x] (map call l)); [apply Hbody|apply IH].
Qed.

Lemma update_document_makes (document : ConfluenceDocument.t) (base_path : Path) :
  makes (_update_document document base_path) (document_calls document base_path).
Proof.
  unfold _update_document, document_calls.
  apply makes_seq; [|apply makes_seq].
  - apply makes_for_each. intros image. apply makes_remote.
  - apply makes_for_each. intros [image data]. apply makes_remote.
  - apply makes_remote.
Qed.

Lemma document_calls_shape (document : ConfluenceDocument.t) (base_path : Path) :
  ∃ uploads page_id content,
    document_calls document base_path = uploads ++ [UpdatePage page_id content] ∧
    Forall (λ call, is_upload call = true) uploads.
Proof.
  unfold document_calls. eexists (_ ++ _), _, _.
  split; [by rewrite <- app_assoc|].
  apply Forall_app. split; apply Forall_fmap, Forall_forall.
  - done.
  - by intros [image data] _.
Qed.

(** C8: the calls made for a document are its uploads, file-referenced
    and embedded, and then the content update; a run stops at the first
    call that raises, so whenever the content update is issued every
    upload has been issued before it and no call follows it. *)
Theorem uploads_before_update (document : ConfluenceDocument.t)
    (base_path : Path) (w : World) :
  let o := _update_document document base_path w in
  ∃ calls,
    after_calls (session_space w) calls w (world_of o) ∧
    calls `prefix_of` document_calls document base_path ∧
    (returned o → calls = document_calls document base_path) ∧
    (∀ i page_id content,
       calls !! i = Some (UpdatePage page_id content) →
       calls = document_calls document base_path ∧
       S i = length calls ∧
       ∀ j call, (j < i)%nat → calls !! j = Some call → is_upload call = true).
Proof.
  cbn zeta.
  destruct (update_document_makes document base_path w)
    as (calls & Hafter & Hprefix & Hall).
  exists calls. do 3 (split; [done|]).
  intros i page_id content Hi.
  destruct (document_calls_shape document base_path)
    as (uploads & pid & c & Hshape & Huploads).
  rewrite Hshape in *.
  pose proof (prefix_lookup_Some _ _ _ _ Hi Hprefix) as Hi'.
  assert (i = length uploads) as ->.
  { destruct (decide (i < length uploads)%nat) as [Hlt|Hge].
    - rewrite lookup_app_l in Hi' by done.
      by pose proof (proj1 (Forall_lookup _ _) Huploads _ _ Hi').
    - apply lookup_lt_Some in Hi'. rewrite length_app in Hi'. simpl in Hi'. lia. }
  assert (calls = uploads ++ [UpdatePage pid c]) as ->.
  { apply prefix_length_eq; [done|].
    apply lookup_lt_Some in Hi. rewrite length_app. simpl. lia. }
  split; [done|]. split; [rewrite length_app; simpl; lia|].
  intros j call Hj Hcall. rewrite lookup_app_l in Hcall by done.
  by apply (proj1 (Forall_lookup _ _) Huploads _ _ Hcall).
Qed.
(** C7: the remote calls for a document are made in the document's own
    space when it has one and in the session's space otherwise, so the
    space in force differs from the session's exactly when the document's
    space differs from it; after the document the session is back in the
    space it was in. *)
Theorem space_switch_scoped (page_path : Path) (page_metadata : Dict)
    (w : World) (document : ConfluenceDocument.t) :
  load_document page_path page_metadata (files w) = inr document →
  let own := ConfluenceQualifiedID.space_key (ConfluenceDocument.id document) in
  let space := or_else own (session_space w) in
  let o := _synchronize_page page_path page_metadata w in
  (∃ calls,
     history (world_of o)
     = history w ++ Synchronize page_path :: map (Remote space) calls ∧
     calls `prefix_of` document_calls document (path_parent page_path) ∧
     (returned o → calls = document_calls document (path_parent page_path))) ∧
  session_space (world_of o) = session_space w ∧
  files (world_of o) = files w ∧
  (space ≠ session_space w
   ↔ ∃ k, own = Some k ∧ k ≠ [] ∧ k ≠ session_space w).
Proof.
  intros Hload own space o.
  assert (space ≠ session_space w
          ↔ ∃ k, own = Some k ∧ k ≠ [] ∧ k ≠ session_space w) as Hiff.
  { subst space. destruct own as [[|c k]|]; cbn [or_else].
    - split; [done|]. by intros (k & [= <-] & ? & _).
    - split; [by exists (c :: k)|]. by intros (k' & [= <-] & _ & ?).
    - split; [done|]. by intros (k & [=] & _). }
  split; [|split; [|split; [|exact Hiff]]]; subst o;
    unfold _synchronize_page; rewrite bind_unfold; cbn [record];
    rewrite bind_unfold; unfold new_document; cbn [files]; rewrite Hload;
    fold own;
    set (w1 := mkWorld (files w) (wiki w) (session_space w)
                 (history w ++ [Synchronize page_path])).
  all: destruct own as [[|c k]|] eqn:Hown; subst space; cbn [or_else].
  all: try unfold switch_space.
  all: match goal with
       | |- context [_update_document ?d ?b ?w0] =>
           destruct (update_document_makes d b w0)
             as (calls & (Hf & Hs & Hh) & Hprefix & Hall);
           destruct (_update_document d b w0) as [[] w2|e w2];
           cbn [world_of set_space history files session_space] in *
       end.
  all: try (exists calls; split; [|done]; rewrite Hh; cbn;
            by rewrite <- app_assoc).
  all: subst w1; cbn [files session_space] in *; congruence.
Qed.
End Synchronizer.

(** ** Directory Indexer *)

Lemma dict_keys_set (k : Path) (v : ConfluencePageMetadata.t) (d : Dict) (p : Path) :
  p ∈ dict_keys (dict_set k v d) ↔ p = k ∨ p ∈ dict_keys d.
Proof.
  unfold dict_keys. induction d as [|[k' v'] d IH]; simpl.
  - rewrite list_elem_of_singleton, elem_of_nil. tauto.
  - destruct (decide (k = k')) as [->|Hne]; simpl.
    + rewrite !elem_of_cons. tauto.
    + rewrite !elem_of_cons, IH. tauto.
Qed.

Lemma dict_keys_set_NoDup (k : Path) (v : ConfluencePageMetadata.t) (d : Dict) :
  NoDup (dict_keys d) → NoDup (dict_keys (dict_set k v d)).
Proof.
  induction d as [|[k' v'] d IH]; simpl; intros Hnd.
  - apply NoDup_singleton.
  - apply NoDup_cons in Hnd as [Hk' Hnd].
    destruct (decide (k = k')) as [->|Hne]; simpl.
    + by apply NoDup_cons.
    + apply NoDup_cons. split; [|by apply IH].
      rewrite (dict_keys_set k v d k'). intros [->|?]; done.
Qed.

Lemma resolutions_app (h1 h2 : list Event) :
  resolutions (h1 ++ h2) = resolutions h1 ++ resolutions h2.
Proof. apply omap_app. Qed.

Lemma list_remove_elem_of (x y : Path) (l : list Path) :
  y ≠ x → y ∈ l → y ∈ list_remove x l.
Proof.
  intros Hne. induction l as [|z l IH]; simpl; [done|].
  rewrite elem_of_cons. intros [->|Hin].
  - rewrite decide_False by done. apply elem_of_cons. by left.
  - destruct (decide (x = z)); [done|]. apply elem_of_cons. right. by apply IH.
Qed.

Lemma list_remove_subseteq (x y : Path) (l : list Path) :
  y ∈ list_remove x l → y ∈ l.
Proof.
  induction l as [|z l IH]; simpl; [done|].
  destruct (decide (x = z)); rewrite !elem_of_cons; [by right|].
  intros [->|Hin]; [by left|right; by apply IH].
Qed.

Lemma list_remove_NoDup (x : Path) (l : list Path) :
  NoDup l → x ∉ list_remove x l.
Proof.
  induction l as [|z l IH]; simpl; intros Hnd; [apply not_elem_of_nil|].
  apply NoDup_cons in Hnd as [Hz Hnd].
  destruct (decide (x = z)) as [->|Hne]; [done|].
  apply not_elem_of_cons. split; [done|by apply IH].
Qed.

Section Indexer.
Context `{Collaborators}.

Local Abbreviation QID := ConfluenceQualifiedID.t.

Lemma index_trace_refl (w : World) : index_trace w w [].
Proof. split; [done|]. exists []. by rewrite app_nil_r. Qed.

Lemma index_trace_trans (w w1 w2 : World) (res1 res2 : list (Path * option QID)) :
  index_trace w w1 res1 → index_trace w1 w2 res2 →
  index_trace w w2 (res1 ++ res2).
Proof.
  intros (Hs1 & a1 & Hh1 & Hev1 & <-) (Hs2 & a2 & Hh2 & Hev2 & <-).
  split; [congruence|]. exists (a1 ++ a2).
  rewrite Hh2, Hh1, <- app_assoc, resolutions_app.
  split; [done|]. split; [by apply Forall_app|done].
Qed.

(** The resolver leaves its own resolution in the history, with at most
    one remote call that fetches or creates a page. *)
Lemma resolve_trace (absolute_path : Path) (parent_id : option QID)
    (title : option str) (w : World) :
  index_trace w (world_of (_get_or_create_page absolute_path parent_id title w))
    [(absolute_path, parent_id)].
Proof.
  unfold _get_or_create_page, _create_page, frontmatter_title, _update_markdown.
  unfold mbind, M_bind, record, read_text, write_text, remote,
    api_space_key, raise, mret, M_ret.
  cbn [files wiki session_space history].
  repeat case_match; simplify_eq; cbn [world_of];
    (split; [done|]; cbn [history]; rewrite <- ?app_assoc;
     eexists; split; [reflexivity|]; split; [by repeat constructor|done]).
Qed.

Lemma index_run_ret {A} (keys_of : A → list Path) (a : A) (w : World) :
  index_run keys_of (keys_of a) w (Returned a w).
Proof.
  exists []. split; [apply index_trace_refl|].
  intros a' w' [= <- <-]. split; [done|].
  intros p. rewrite elem_of_nil. tauto.
Qed.

Lemma index_run_raised {A} (keys_of : A → list Path) (keys0 : list Path)
    (e : Exception) (w : World) :
  index_run keys_of keys0 w (Raised e w).
Proof. exists []. split; [apply index_trace_refl|done]. Qed.

Lemma index_run_bind {A B} (kA : A → list Path) (kB : B → list Path)
    (keys0 : list Path) (m : M A) (f : A → M B) (w : World) :
  index_run kA keys0 w (m w) →
  (∀ a w1, m w = Returned a w1 → index_run kB (kA a) w1 (f a w1)) →
  index_run kB keys0 w ((m ≫= f) w).
Proof.
  intros (res1 & Htrace1 & Hkeys1) Hf. rewrite bind_unfold.
  destruct (m w) as [a w1|e w1]; cbn [world_of] in *.
  - destruct (Hf a w1 eq_refl) as (res2 & Htrace2 & Hkeys2).
    destruct (Hkeys1 a w1 eq_refl) as [Hnd1 Hin1].
    exists (res1 ++ res2). split; [by eapply index_trace_trans|].
    intros b w2 Hb. destruct (Hkeys2 b w2 Hb) as [Hnd2 Hin2].
    split; [tauto|]. intros p.
    rewrite Hin2, Hin1, fmap_app, elem_of_app. tauto.
  - exists res1. by split.
Qed.

(** One step of the indexer: resolve a file, enter it in the dict. *)
Lemma index_run_resolve (doc : Path) (parent_id : option QID)
    (page_metadata : Dict) (w : World) :
  index_run (λ metadata, dict_keys (dict_set doc metadata page_metadata))
    (dict_keys page_metadata) w (_get_or_create_page doc parent_id None w).
Proof.
  exists [(doc, parent_id)]. split; [apply resolve_trace|].
  intros metadata w' _. split; [apply dict_keys_set_NoDup|].
  intros p. rewrite dict_keys_set. cbn. rewrite list_elem_of_singleton. tauto.
Qed.

Lemma index_files_run (files : list Path) (parent_id : option QID)
    (page_metadata : Dict) (w : World) :
  index_run dict_keys (dict_keys page_metadata) w
    (index_files files parent_id page_metadata w).
Proof.
  revert page_metadata w.
  induction files as [|doc files IH]; intros page_metadata w.
  - apply (index_run_ret dict_keys).
  - cbn [index_files].
    eapply index_run_bind; [apply index_run_resolve|].
    intros metadata w1 _. apply IH.
Qed.
Lemma index_documents_run (local_dir : Path) (entries : list Entry)
    (root_id : option QID) (page_metadata : Dict) (w : World) :
  index_run (λ r, dict_keys r.2) (dict_keys page_metadata) w
    (index_documents local_dir entries root_id page_metadata w).
Proof.
  unfold index_documents.
  eapply (index_run_bind (λ r, dict_keys r.2)).
  - destruct (parent_document _ _) as [parent_doc|].
    + eapply index_run_bind; [apply index_run_resolve|].
      intros metadata w1 _.
      unfold read_qualified_id, read_text. rewrite !bind_unfold.
      destruct (files w1 !! parent_doc) as [text|].
      * apply (index_run_ret (λ r : list Path * option QID * Dict,
                                dict_keys r.2)).
      * apply index_run_raised.
    + apply (index_run_ret (λ r : list Path * option QID * Dict,
                              dict_keys r.2)).
  - intros [[files parent_id] page_metadata1] w1 _. cbn [snd].
    eapply index_run_bind; [apply index_files_run|].
    intros page_metadata2 w2 _.
    apply (index_run_ret (λ r : option QID * Dict, dict_keys r.2)
                         (parent_id, page_metadata2)).
Qed.

(** [_index_directory] on a directory: the documents of the listing, then
    its directories. *)
Lemma index_directory_unfold (local_dir : Path) (name : str)
    (entries : list Entry) (root_id : option QID) (page_metadata : Dict)
    (w : World) :
  _index_directory local_dir (Directory name entries) root_id page_metadata w
  = match index_documents local_dir entries root_id page_metadata w with
    | Returned (parent_id, page_metadata1) w1 =>
        index_directories local_dir parent_id entries page_metadata1 w1
    | Raised e w1 => Raised e w1
    end.
Proof.
  cbn [_index_directory]. rewrite bind_unfold.
  destruct (index_documents _ _ _ _ w) as [[parent_id pm1] w1|e w1]; [|done].
  generalize entries. intros scan. revert pm1 w1.
  induction scan as [|e scan IH]; intros pm1 w1; [done|].
  cbn [index_directories].
  destruct (negb _ && is_dir e); [|apply IH].
  rewrite !bind_unfold.
  destruct (_index_directory _ e parent_id pm1 w1) as [pm2 w2|]; [apply IH|done].
Qed.

Lemma index_directory_run (local_dir : Path) (directory : Entry)
    (root_id : option QID) (page_metadata : Dict) (w : World) :
  index_run dict_keys (dict_keys page_metadata) w
    (_index_directory local_dir directory root_id page_metadata w).
Proof.
  revert local_dir root_id page_metadata w.
  induction directory as [name|name|name children IH] using Entry_tree_ind;
    intros local_dir root_id page_metadata w;
    [apply index_run_raised..|].
  rewrite index_directory_unfold.
  pose proof (index_run_bind (λ r : option QID * Dict, dict_keys r.2) dict_keys
                (dict_keys page_metadata)
                (index_documents local_dir children root_id page_metadata)
                (λ r, index_directories local_dir r.1 children r.2) w) as Hbind.
  rewrite bind_unfold in Hbind.
  destruct (index_documents _ _ _ _ w) as [[parent_id pm1] w1|e w1] eqn:Hdocs.
  - cbn [fst snd] in Hbind. apply Hbind.
    + rewrite <- Hdocs. apply index_documents_run.
    + intros [parent_id' pm1'] w1' [= <- <- <-]. cbn [fst snd].
      clear Hbind Hdocs. revert pm1 w1.
      induction IH as [|e scan He _ IHscan]; intros pm1 w1.
      * apply (index_run_ret dict_keys).
      * cbn [index_directories].
        destruct (negb _ && is_dir e); [|apply IHscan].
        eapply index_run_bind; [apply He|].
        intros pm2 w2 _. apply IHscan.
  - apply Hbind; [|done]. rewrite <- Hdocs. apply index_documents_run.
Qed.
Lemma sync_trace_refl (w : World) : sync_trace w w [].
Proof. exists []. by rewrite app_nil_r. Qed.

Lemma sync_trace_trans (w w1 w2 : World) (paths1 paths2 : list Path) :
  sync_trace w w1 paths1 → sync_trace w1 w2 paths2 →
  sync_trace w w2 (paths1 ++ paths2).
Proof.
  intros (a1 & Hh1 & Hev1 & <-) (a2 & Hh2 & Hev2 & <-).
  exists (a1 ++ a2). rewrite Hh2, Hh1, <- app_assoc.
  split; [done|]. split; [by apply Forall_app|].
  unfold synchronized. by rewrite omap_app.
Qed.

Lemma document_calls_sync (document : ConfluenceDocument.t) (base_path : Path)
    (space : str) (calls : list Call) :
  calls `prefix_of` document_calls document base_path →
  Forall (λ ev, is_sync_event ev = true) (map (Remote space) calls) ∧
  synchronized (map (Remote space) calls) = [].
Proof.
  intros [rest Hrest].
  destruct (document_calls_shape document base_path)
    as (uploads & page_id & content & Hshape & Huploads).
  assert (Forall (λ call, is_sync_event (Remote space call) = true) calls)
    as Hcalls.
  { assert (Forall (λ call, is_sync_event (Remote space call) = true)
              (document_calls document base_path)) as Hall.
    { rewrite Hshape. apply Forall_app. split; [|by repeat constructor].
      eapply Forall_impl; [exact Huploads|]. by intros [] ?. }
    rewrite Hrest in Hall. by apply Forall_app in Hall as [? _]. }
  clear Hrest. induction Hcalls as [|call calls Hcall _ [IH1 IH2]]; [done|].
  split; [by constructor|]. by destruct call.
Qed.

(** Synchronizing a page leaves its start in the history, and remote
    calls that upload or update. *)
Lemma synchronize_page_trace (page_path : Path) (page_metadata : Dict)
    (w : World) :
  sync_trace w (world_of (_synchronize_page page_path page_metadata w))
    [page_path].
Proof.
  unfold _synchronize_page. rewrite bind_unfold. cbn [record].
  rewrite bind_unfold. unfold new_document. cbn [files].
  set (w1 := mkWorld (files w) (wiki w) (session_space w)
               (history w ++ [Synchronize page_path])).
  destruct (load_document _ _ _) as [detail|document].
  { exists [Synchronize page_path]. by repeat constructor. }
  assert (∀ space w2 calls,
            history w2 = history w1 ++ map (Remote space) calls →
            calls `prefix_of` document_calls document (path_parent page_path) →
            ∃ added,
              history w2 = history w ++ added ∧
              Forall (λ ev, is_sync_event ev = true) added ∧
              synchronized added = [page_path]) as Hdone.
  { intros space w2 calls Hh Hprefix.
    destruct (document_calls_sync _ _ space _ Hprefix) as [Hev Hnone].
    exists (Synchronize page_path :: map (Remote space) calls).
    rewrite Hh. subst w1. cbn [history]. rewrite <- app_assoc.
    split; [done|]. split; [by constructor|].
    unfold synchronized in *. cbn. by rewrite Hnone. }
  destruct (ConfluenceQualifiedID.space_key _) as [[|c k]|];
    try unfold switch_space.
  all: match goal with
       | |- context [_update_document ?d ?b ?w0] =>
           destruct (update_document_makes d b w0)
             as (calls & (Hf & Hs & Hh) & Hprefix & Hall);
           destruct (_update_document d b w0) as [[] w2|e w2];
           cbn [world_of set_space history files session_space] in *
       end.
  all: by eapply Hdone.
Qed.

Lemma synchronize_pages_trace (page_metadata : Dict) (paths : list Path)
    (w : World) :
  let o := for_each paths (λ page_path,
             _synchronize_page page_path page_metadata) w in
  ∃ started,
    sync_trace w (world_of o) started ∧
    started `prefix_of` paths ∧
    (returned o → started = paths).
Proof.
  revert w. induction paths as [|page_path paths IH]; intros w; cbn zeta.
  - exists []. split; [apply sync_trace_refl|done].
  - cbn [for_each]. rewrite bind_unfold.
    pose proof (synchronize_page_trace page_path page_metadata w) as Hpage.
    destruct (_synchronize_page page_path page_metadata w) as [[] w1|e w1];
      cbn [world_of] in Hpage.
    + destruct (IH w1) as (started & Htrace & Hprefix & Hall).
      exists (page_path :: started). split; [|split].
      * by apply (sync_trace_trans w w1 _ [page_path]).
      * by apply prefix_cons.
      * intros Hret. f_equal. by apply Hall.
    + exists [page_path]. split; [done|]. split; [|done].
      by exists paths.
Qed.

(** C9: a directory run is the whole indexing, then the synchronizing.
    When the indexer raises nothing is synchronized; when it returns, its
    events are events of indexing only, the dict has one entry for each
    file it resolved, and every event after it belongs to synchronizing:
    the pages started are the keys of the dict in order, all of them when
    the run returns. *)
Theorem index_then_synchronize (local_dir : Path) (directory : Entry)
    (w : World) :
  let root_id :=
    match root_page_id with
    | Some (c :: k) =>
        Some (ConfluenceQualifiedID.mk (c :: k) (Some (session_space w)))
    | _ => None
    end in
  let o := synchronize_directory local_dir directory w in
  match _index_directory local_dir directory root_id [] w with
  | Raised e w1 => o = Raised e w1
  | Returned page_metadata w1 =>
      (∃ res,
         index_trace w w1 res ∧
         ∀ p, p ∈ dict_keys page_metadata ↔ p ∈ map fst res) ∧
      NoDup (dict_keys page_metadata) ∧
      ∃ started,
        sync_trace w1 (world_of o) started ∧
        started `prefix_of` dict_keys page_metadata ∧
        (returned o → started = dict_keys page_metadata)
  end.
Proof.
  cbn zeta. unfold synchronize_directory.
  rewrite bind_unfold. cbn [api_space_key]. rewrite bind_unfold.
  pose proof (index_directory_run local_dir directory
                (match root_page_id with
                 | Some (c :: k) =>
                     Some (ConfluenceQualifiedID.mk (c :: k)
                             (Some (session_space w)))
                 | _ => None
                 end) [] w) as (res & Htrace & Hkeys).
  destruct (_index_directory _ _ _ _ w) as [page_metadata w1|e w1]; [|done].
  destruct (Hkeys _ _ eq_refl) as [Hnd Hin]. cbn [world_of] in Htrace.
  split; [|split].
  - exists res. split; [done|]. intros p. rewrite Hin, elem_of_nil. tauto.
  - apply Hnd. apply NoDup_nil_2.
  - apply synchronize_pages_trace.
Qed.
Lemma index_trace_functional (w w' : World) (res1 res2 : list (Path * option QID)) :
  index_trace w w' res1 → index_trace w w' res2 → res1 = res2.
Proof.
  intros (_ & a1 & Hh1 & _ & <-) (_ & a2 & Hh2 & _ & <-).
  rewrite Hh1 in Hh2. by apply app_inv_head in Hh2 as ->.
Qed.

Lemma index_files_returned (plain : list Path) (parent_id : option QID)
    (page_metadata page_metadata' : Dict) (w w' : World) :
  index_files plain parent_id page_metadata w = Returned page_metadata' w' →
  index_trace w w' (map (λ f, (f, parent_id)) plain).
Proof.
  revert page_metadata w.
  induction plain as [|doc plain IH]; intros page_metadata w.
  - intros [= <- <-]. apply index_trace_refl.
  - cbn [index_files]. rewrite bind_unfold.
    pose proof (resolve_trace doc parent_id None w) as Hdoc.
    destruct (_get_or_create_page doc parent_id None w) as [m w1|e w1];
      [|done].
    intros Hrest. apply IH in Hrest.
    by apply (index_trace_trans w w1 w' [(doc, parent_id)]).
Qed.

(** The first half of [_index_directory] on a listing with a
    representative document, when it returns. *)
Lemma index_documents_inv (local_dir : Path) (entries : list Entry)
    (root_id parent_id : option QID) (page_metadata page_metadata' : Dict)
    (w w' : World) (r : Path) :
  parent_document local_dir (scanned_files local_dir entries) = Some r →
  index_documents local_dir entries root_id page_metadata w
  = Returned (parent_id, page_metadata') w' →
  ∃ metadata w_r text_r,
    _get_or_create_page r root_id None w = Returned metadata w_r ∧
    files w_r !! r = Some text_r ∧
    parent_id = match (extract_qualified_id text_r).1 with
                | Some q => Some q
                | None => root_id
                end ∧
    index_files (list_remove r (scanned_files local_dir entries)) parent_id
      (dict_set r metadata page_metadata) w_r
    = Returned page_metadata' w'.
Proof.
  intros Hparent. unfold index_documents. rewrite Hparent.
  rewrite !bind_unfold.
  destruct (_get_or_create_page r root_id None w) as [metadata w_r|e w_r];
    [|done].
  unfold read_qualified_id, read_text. rewrite !bind_unfold.
  destruct (files w_r !! r) as [text_r|] eqn:Hfile; [|done].
  cbn [mret M_ret]. rewrite bind_unfold.
  destruct (index_files _ _ _ w_r) as [pm2 w2|e w2] eqn:Hfiles; [|done].
  intros [= <- <- <-]. by exists metadata, w_r, text_r.
Qed.

(** The same on any outcome: the representative document is resolved
    first, under the inherited parent. *)
Lemma index_documents_first (local_dir : Path) (entries : list Entry)
    (root_id : option QID) (page_metadata : Dict) (w : World) (r : Path) :
  parent_document local_dir (scanned_files local_dir entries) = Some r →
  let o := index_documents local_dir entries root_id page_metadata w in
  ∃ res_plain,
    index_trace w (world_of o) ((r, root_id) :: res_plain) ∧
    ∀ parent_id page_metadata' w',
      o = Returned (parent_id, page_metadata') w' →
      res_plain = map (λ f, (f, parent_id))
                    (list_remove r (scanned_files local_dir entries)).
Proof.
  intros Hparent o.
  destruct o as [[parent_id pm'] w'|e w'] eqn:Ho; subst o.
  - destruct (index_documents_inv _ _ _ _ _ _ _ _ _ Hparent Ho)
      as (metadata & w_r & text_r & Hr & _ & _ & Hplain).
    pose proof (resolve_trace r root_id None w) as Htrace.
    rewrite Hr in Htrace. apply index_files_returned in Hplain.
    eexists. split.
    + apply (index_trace_trans w w_r w' [(r, root_id)]); [done|exact Hplain].
    + by intros ? ? ? [= <- <- <-].
  - revert Ho. unfold index_documents. rewrite Hparent, !bind_unfold.
    pose proof (resolve_trace r root_id None w) as Htrace.
    destruct (_get_or_create_page r root_id None w) as [metadata w_r|e' w_r].
    + unfold read_qualified_id, read_text. rewrite !bind_unfold.
      destruct (files w_r !! r) as [text_r|].
      * cbn [mret M_ret]. rewrite bind_unfold.
        match goal with |- context [index_files ?l ?q ?d w_r] =>
          destruct (index_files_run l q d w_r) as (res & Hres & _);
          destruct (index_files l q d w_r) as [pm2 w2|e2 w2]
        end; [done|].
        intros [= <- <-]. exists res. split; [|done].
        by apply (index_trace_trans w w_r w2 [(r, root_id)]).
      * intros [= <- <-]. exists []. by split.
    + intros [= <- <-]. exists []. by split.
Qed.

Lemma path_join_inj (local_dir : Path) (a b : str) :
  path_join local_dir a = path_join local_dir b → a = b.
Proof. unfold path_join. intros Heq%app_inv_head. by simplify_eq. Qed.

Lemma scanned_files_elem_of (local_dir : Path) (entries : list Entry)
    (p : Path) :
  p ∈ scanned_files local_dir entries ↔
  ∃ name, p = path_join local_dir name ∧ File name ∈ entries ∧
          is_excluded local_dir name false = false.
Proof.
  unfold scanned_files. induction entries as [|e entries IH]; cbn.
  - rewrite elem_of_nil. split; [done|]. intros (name & _ & Hin & _).
    by apply elem_of_nil in Hin.
  - assert ((∃ name, p = path_join local_dir name ∧ File name ∈ e :: entries ∧
                     is_excluded local_dir name false = false)
            ↔ (is_file e = true ∧
               is_excluded local_dir (entry_name e) false = false ∧
               p = path_join local_dir (entry_name e))
              ∨ ∃ name, p = path_join local_dir name ∧ File name ∈ entries ∧
                        is_excluded local_dir name false = false) as ->.
    { split.
      - intros (name & -> & [<-|Hin]%elem_of_cons & Hex); [by left|].
        right. by exists name.
      - intros [(Hfile & Hex & ->)|(name & -> & Hin & Hex)].
        + destruct e; try done. eexists. split; [done|].
          split; [apply elem_of_cons; by left|done].
        + exists name. split; [done|]. split; [apply elem_of_cons; by right|done]. }
    rewrite <- IH. clear IH.
    destruct e as [name|name|name children]; cbn.
    + destruct (is_excluded local_dir name false) eqn:Hex; cbn.
      * split; [by right|]. by intros [(_ & ? & _)|?].
      * rewrite elem_of_cons. split; [intros [->|?]; [by left|by right]|].
        intros [(_ & _ & ->)|?]; [by left|by right].
    + rewrite andb_false_r. split; [by right|]. by intros [(? & _)|?].
    + rewrite andb_false_r. split; [by right|]. by intros [(? & _)|?].
Qed.

Lemma scanned_files_NoDup (local_dir : Path) (entries : list Entry) :
  NoDup (map entry_name entries) → NoDup (scanned_files local_dir entries).
Proof.
  induction entries as [|e entries IH]; cbn; [intros _; apply NoDup_nil_2|].
  intros [Hname Hnd]%NoDup_cons. specialize (IH Hnd).
  unfold scanned_files. cbn.
  destruct (negb _ && is_file e); [|exact IH].
  cbn. apply NoDup_cons. split; [|exact IH].
  intros (name & Heq%path_join_inj & Hin & _)%scanned_files_elem_of.
  apply Hname. rewrite Heq.
  by apply (list_elem_of_fmap_2 entry_name entries (File name)).
Qed.
(** C4: with both [index.md] and [README.md] among the files of a
    listing, [index.md] is the representative document: it leaves the
    batch of plain files, where [README.md] stays, and it is resolved
    first, under the inherited parent; the plain files follow under the
    parent identity of the directory. *)
Theorem index_md_is_representative (local_dir : Path) (entries : list Entry)
    (root_id : option QID) (page_metadata : Dict) (w : World) :
  File (lit "index.md") ∈ entries →
  File (lit "README.md") ∈ entries →
  is_excluded local_dir (lit "index.md") false = false →
  is_excluded local_dir (lit "README.md") false = false →
  NoDup (map entry_name entries) →
  let index_md := path_join local_dir (lit "index.md") in
  let readme := path_join local_dir (lit "README.md") in
  let scanned := scanned_files local_dir entries in
  let o := index_documents local_dir entries root_id page_metadata w in
  parent_document local_dir scanned = Some index_md ∧
  (index_md ∉ list_remove index_md scanned) ∧
  (readme ∈ list_remove index_md scanned) ∧
  ∃ res_plain,
    index_trace w (world_of o) ((index_md, root_id) :: res_plain) ∧
    ∀ parent_id page_metadata' w',
      o = Returned (parent_id, page_metadata') w' →
      res_plain = map (λ f, (f, parent_id)) (list_remove index_md scanned).
Proof.
  intros Hindex Hreadme Hkeep1 Hkeep2 Hnames index_md readme scanned o.
  assert (index_md ∈ scanned) as Hin1.
  { apply scanned_files_elem_of. by exists (lit "index.md"). }
  assert (readme ∈ scanned) as Hin2.
  { apply scanned_files_elem_of. by exists (lit "README.md"). }
  assert (parent_document local_dir scanned = Some index_md) as Hparent.
  { unfold parent_document. by rewrite bool_decide_eq_true_2. }
  split; [done|]. split; [|split].
  - by apply list_remove_NoDup, scanned_files_NoDup.
  - apply list_remove_elem_of; [|done].
    intros Heq%path_join_inj. discriminate Heq.
  - by apply index_documents_first.
Qed.

End Indexer.

(** ** Runs on the small wiki *)


Lemma resolver_failure_witness :
  let D := demo demo_loader in
  let path := demo_docs ++ [lit "notes.md"] in
  let w := demo_world D [] demo_files in
  ∃ w', _get_or_create_page (H := D) path None None w = Raised (ValueError path) w'.
Proof.
  intros D path w.
  destruct (resolver_failure (H := D) path None None w (lit "notes") eq_refl)
    as [Hiff _].
  apply Hiff. split; reflexivity.
Defined.

Lemma unmapped_front_matter_tolerated_witness :
  let D := demo demo_loader in
  let path := demo_docs ++ [lit "guide.md"] in
  let text := FM_OPEN ++ lit "just text" ++ FM_CLOSE ++ lit "body" in
  let w := demo_world D [] [(path, text)] in
  ∃ metadata w',
    _get_or_create_page (H := D) path (Some demo_root) None w
    = Returned metadata w' ∧
    history w' = [Resolve path (Some demo_root);
                  Remote (lit "DOCS") (GetOrCreatePage (lit "guide") (lit "1000") None)].
Proof.
  intros D path text w.
  eapply (unmapped_front_matter_tolerated (H := D) path demo_root w text
            (lit "just text") text (YStr (lit "just text"))).
  - reflexivity.
  - reflexivity.
  - reflexivity.
  - reflexivity.
  - intros items. discriminate.
  - reflexivity.
Defined.

(** The whole directory run, twice: the three files without a marker are
    created in the first run, and the second run creates nothing. *)
Example demo_directory_twice :
  let D := demo demo_loader in
  let w := demo_world D [] demo_files in
  let o1 := synchronize_directory (H := D) demo_docs demo_tree w in
  let o2 := synchronize_directory (H := D) demo_docs demo_tree (world_of o1) in
  returned o1 ∧ returned o2 ∧
  creations (history (world_of o1)) = 3%nat ∧
  creations (history (world_of o2)) = 3%nat ∧
  wiki (world_of o2) = wiki (world_of o1).
Proof. vm_compute. repeat split; reflexivity. Qed.

(** C6, as stated, fails: a front-matter that the loader rejects makes the
    resolver raise the loader's error. *)
Lemma rejected_front_matter_raises :
  let D := demo rejecting_loader in
  let path := demo_docs ++ [lit "guide.md"] in
  let text := FM_OPEN ++ lit "title: [x" ++ FM_CLOSE ++ lit "body" in
  let w := demo_world D [] [(path, text)] in
  (extract_qualified_id text).1 = None ∧
  (extract_frontmatter (Collaborators := D) text).1 = Some (lit "title: [x") ∧
  safe_load (Collaborators := D) (lit "title: [x") = None ∧
  _get_or_create_page (H := D) path (Some demo_root) None w
  = Raised YAMLError
      (mkWorld (files w) (wiki w) (session_space w)
         [Resolve path (Some demo_root)]).
Proof. repeat split; reflexivity. Qed.

Lemma space_switch_scoped_witness :
  let D := demo demo_loader in
  let path := demo_docs ++ [lit "team.md"] in
  let text := page_id_comment (lit "7") ++ nl :: space_key_comment (lit "TEAM")
              ++ nl :: lit "body" in
  let w := demo_world D [] [(path, text)] in
  let o := _synchronize_page (H := D) path [] w in
  session_space (world_of o) = lit "DOCS" ∧
  ∃ calls,
    history (world_of o) = Synchronize path :: map (Remote (lit "TEAM")) calls.
Proof.
  intros D path text w o.
  edestruct (space_switch_scoped (H := D) path [] w) as ((calls & Hh & _) & Hs & _).
  - vm_compute. reflexivity.
  - split; [exact Hs|]. exists calls. exact Hh.
Defined.

Lemma index_md_is_representative_witness :
  let D := demo demo_loader in
  let entries := match demo_tree with Directory _ l => l | _ => [] end in
  parent_document demo_docs (scanned_files (H := D) demo_docs entries)
  = Some (path_join demo_docs (lit "index.md")).
Proof.
  intros D entries.
  refine (proj1 (index_md_is_representative (H := D) demo_docs entries
                   (Some demo_root) [] (demo_world D [] demo_files) _ _ _ _ _)).
  - apply elem_of_cons. right. apply elem_of_cons. by left.
  - apply elem_of_cons. by left.
  - reflexivity.
  - reflexivity.
  - compute_done.
Defined.



(** * Further properties of the engine *)

(** ** Local State Writer *)

Lemma find_from_cases (sub s : str) (i : nat) :
  (find_from sub s i = -1 ∧ ∀ k, startswith sub (drop k s) = false) ∨
  ∃ k, (k ≤ length s)%nat ∧
       find_from sub s i = Z.of_nat (i + k) ∧
       startswith sub (drop k s) = true ∧
       ∀ j, (j < k)%nat → startswith sub (drop j s) = false.
Proof.
  revert i. induction s as [|a s IH]; intros i; cbn [find_from].
  - destruct (startswith sub []) eqn:Hs.
    + right. exists 0%nat. rewrite Nat.add_0_r.
      split; [done|]. split; [done|]. split; [done|]. intros j Hj. lia.
    + left. split; [done|]. intros k. by rewrite drop_nil.
  - destruct (startswith sub (a :: s)) eqn:Hs.
    + right. exists 0%nat. rewrite Nat.add_0_r.
      split; [simpl; lia|]. split; [done|]. split; [done|]. intros j Hj. lia.
    + destruct (IH (S i)) as [[Hnone Hno]|(k & Hk & Hfound & Hat & Hbefore)].
      * left. split; [done|]. intros [|k]; [done|]. apply Hno.
      * right. exists (S k). split; [simpl; lia|].
        split; [rewrite Hfound; f_equal; lia|]. split; [done|].
        intros [|j] Hj; [done|]. apply Hbefore. lia.
Qed.

(** X1: whatever the document, the file written is the document cut in two
    at some point with the marker line(s) put in between; no character of
    the document is dropped or moved, and a document that does not open
    with [---] is cut at its start. *)
Theorem writer_keeps_document (document page_id : str) (space_key : option str) :
  ∃ before after,
    document = before ++ after ∧
    updated_markdown document page_id space_key
    = before ++ (if startswith FM_OPEN document then [nl] else [])
      ++ join [nl] (marker_entries page_id space_key) ++ [nl] ++ after ∧
    (startswith FM_OPEN document = false → before = []).
Proof.
  exists (slice_to (split_index document) document),
         (slice_from (split_index document) document).
  split; [symmetry; apply take_drop|].
  destruct (startswith FM_OPEN document) eqn:Hopen.
  - split; [by apply updated_markdown_split|done].
  - assert (split_index document = 0) as ->
      by (unfold split_index; by rewrite Hopen).
    unfold slice_to, slice_from. rewrite (slice_index_nat 0) by lia.
    split; [|done]. rewrite updated_markdown_plain by done. reflexivity.
Qed.

(** X2: when the document opens with the line [---], the markers go in
    right after a line [---] and an empty line follows them.  Which line is
    settled by the search from index 4: where it finds the closing
    delimiter, the cut is right after the dashes of the first closing
    delimiter at or after index 4, so that the block up to them is kept in
    front of the markers; where no closing delimiter occurs from index 4
    on, the cut is after the three opening dashes. *)
Theorem writer_markers_after_dashes (document page_id : str)
    (space_key : option str) :
  startswith FM_OPEN document = true →
  ∃ before after,
    document = before ++ lit "---" ++ nl :: after ∧
    updated_markdown document page_id space_key
    = before ++ lit "---" ++ [nl]
      ++ join [nl] (marker_entries page_id space_key) ++ [nl; nl] ++ after ∧
    ((find FM_CLOSE document 4 = -1 ∧
      before = [] ∧
      ∀ k, startswith FM_CLOSE (drop (4 + k) document) = false)
     ∨
     (∃ block,
        find FM_CLOSE document 4 = Z.of_nat (4 + length block) ∧
        before = FM_OPEN ++ block ++ [nl] ∧
        document = FM_OPEN ++ block ++ FM_CLOSE ++ after ∧
        ∀ k, (k < length block)%nat →
             startswith FM_CLOSE (drop (4 + k) document) = false)).
Proof.
  intros Hopen. destruct (startswith_inv _ _ Hopen) as [r ->].
  rewrite updated_markdown_split by done.
  unfold split_index, find. rewrite Hopen.
  rewrite decide_True by (rewrite length_app; simpl; lia).
  change (drop 4 (FM_OPEN ++ r)) with r.
  assert (∀ k, drop (4 + k) (FM_OPEN ++ r) = drop k r) as Hdrop.
  { intros k. rewrite drop_app_add'; [done|reflexivity]. }
  destruct (find_from_cases FM_CLOSE r 4)
    as [[Hnone Hno]|(k & Hk & Hfound & Hat & Hbefore)]; rewrite ?Hnone, ?Hfound.
  - exists [], r. split; [done|]. split.
    + change (-1 + 4) with (Z.of_nat 3). unfold slice_to, slice_from.
      rewrite slice_index_nat by (rewrite length_app; simpl; lia).
      reflexivity.
    + left. split; [done|]. split; [done|]. intros k. by rewrite Hdrop.
  - destruct (startswith_inv _ _ Hat) as [r2 Hr2].
    assert (r = take k r ++ FM_CLOSE ++ r2) as Hr.
    { rewrite <- Hr2. symmetry. apply take_drop. }
    set (block := take k r) in *.
    assert (length block = k) as Hblock by (subst block; rewrite length_take; lia).
    exists (FM_OPEN ++ block ++ [nl]), r2.
    assert (FM_OPEN ++ r
            = ((FM_OPEN ++ block ++ [nl]) ++ lit "---") ++ nl :: r2) as Hdoc.
    { rewrite Hr at 1. unfold FM_CLOSE. by rewrite <- !app_assoc. }
    split; [by rewrite Hdoc, <- !app_assoc|]. split.
    + replace (Z.of_nat (4 + k) + 4)
        with (Z.of_nat (length ((FM_OPEN ++ block ++ [nl]) ++ lit "---")))
        by (rewrite !length_app, Hblock; simpl; lia).
      rewrite Hdoc. unfold slice_to, slice_from.
      rewrite slice_index_nat by (rewrite !length_app; simpl; lia).
      rewrite take_app_length, drop_app_length.
      by rewrite <- !app_assoc.
    + right. exists block. rewrite Hblock. split; [done|]. split; [done|].
      split; [by rewrite Hr at 1|].
      intros j Hj. rewrite Hdrop. by apply Hbefore.
Qed.

Lemma writer_markers_after_dashes_witness :
  let document := FM_OPEN ++ lit "title: x" ++ FM_CLOSE ++ lit "body" in
  startswith FM_OPEN document = true ∧
  ∃ before after,
    document = before ++ lit "---" ++ nl :: after ∧
    updated_markdown document (lit "1") None
    = before ++ lit "---" ++ [nl]
      ++ join [nl] (marker_entries (lit "1") None) ++ [nl; nl] ++ after.
Proof.
  intros document. split; [reflexivity|].
  destruct (writer_markers_after_dashes document (lit "1") None eq_refl)
    as (before & after & Hdoc & Hnew & _).
  by exists before, after.
Defined.

(** ** Identity Resolver *)

Section ResolverEffects.
Context `{Collaborators}.

Local Abbreviation QID := ConfluenceQualifiedID.t.

(** What a resolution does to the files: nothing, or, when it returns for a
    file without marker, one write to that file. *)
Lemma resolve_effect (absolute_path : Path) (parent_id : option QID)
    (title : option str) (w : World) :
  let o := _get_or_create_page absolute_path parent_id title w in
  files (world_of o) = files w ∨
  (returned o ∧
   ∃ text new,
     files w !! absolute_path = Some text ∧
     (extract_qualified_id text).1 = None ∧
     files (world_of o) = <[absolute_path := new]> (files w)).
Proof.
  unfold _get_or_create_page, _create_page, frontmatter_title, _update_markdown.
  unfold mbind, M_bind, record, read_text, write_text, remote,
    api_space_key, raise, mret, M_ret.
  cbn [files wiki session_space history].
  destruct (files w !! absolute_path) as [text|] eqn:Hfile; [|by left].
  destruct (extract_qualified_id text) as [[q|] body] eqn:Hq.
  - left. repeat case_match; by simplify_eq.
  - repeat case_match; simplify_eq; cbn [world_of files]; try (by left).
    all: right; split; [done|]; exists text; eexists; by rewrite Hq.
Qed.

(** X3: a resolution that returns has read the file and made exactly one
    remote call, and its metadata is that of the page the wiki answered to
    that call.  Where the text of the file carries an identity, the call is
    the fetch of the page with that identity; where it carries none, a
    parent was given and the call is the get-or-create under that parent,
    with the title passed if one was passed.  The wiki after the run is the
    wiki as that one call left it.  The metadata has the page's id, the
    page's space key, or the session's when the page has none, and the
    page's title, or the empty string. *)
Theorem resolution_returns_page_metadata (absolute_path : Path)
    (parent_id : option QID) (title : option str) (w w' : World)
    (metadata : ConfluencePageMetadata.t) :
  _get_or_create_page absolute_path parent_id title w = Returned metadata w' →
  ∃ text page,
    files w !! absolute_path = Some text ∧
    match (extract_qualified_id text).1 with
    | Some q =>
        get_page (ConfluenceQualifiedID.page_id q)
          (ConfluenceQualifiedID.space_key q) (session_space w) (wiki w)
        = (inr page, wiki w') ∧
        history w' = history w ++
          [Resolve absolute_path parent_id;
           Remote (session_space w)
             (GetPage (ConfluenceQualifiedID.page_id q)
                (ConfluenceQualifiedID.space_key q))]
    | None =>
        ∃ parent t,
          parent_id = Some parent ∧
          (∀ given, title = Some given → t = given) ∧
          get_or_create_page t (ConfluenceQualifiedID.page_id parent)
            (ConfluenceQualifiedID.space_key parent) (session_space w) (wiki w)
          = (inr page, wiki w') ∧
          history w' = history w ++
            [Resolve absolute_path parent_id;
             Remote (session_space w)
               (GetOrCreatePage t (ConfluenceQualifiedID.page_id parent)
                  (ConfluenceQualifiedID.space_key parent))]
    end ∧
    metadata = ConfluencePageMetadata.mk api_domain api_base_path
                 (ConfluencePage.id page)
                 (or_else (ConfluencePage.space_key page) (session_space w))
                 (or_else (ConfluencePage.title page) []) ∧
    session_space w' = session_space w ∧
    (session_space w ≠ [] → ConfluencePageMetadata.space_key metadata ≠ []).
Proof.
  unfold _get_or_create_page, _create_page, frontmatter_title, _update_markdown.
  unfold mbind, M_bind, record, read_text, write_text, remote,
    api_space_key, raise, mret, M_ret.
  cbn [files wiki session_space history].
  intros Hrun.
  assert (∀ page : ConfluencePage.t,
            session_space w ≠ [] →
            or_else (ConfluencePage.space_key page) (session_space w) ≠ [])
    as Hspace.
  { intros page Hne. by destruct (ConfluencePage.space_key page) as [[|c k]|]. }
  destruct (files w !! absolute_path) as [text|] eqn:Hfile; [|done].
  destruct (extract_qualified_id text) as [[q|] body] eqn:Hq.
  - repeat case_match; simplify_eq; cbn [history session_space wiki];
      rewrite <- app_assoc;
      (exists text; eexists; split; [reflexivity|]; rewrite Hq; cbn [fst];
       split; [by split|];
       split; [reflexivity|]; split; [done|]; cbn; by apply Hspace).
  - repeat case_match; simplify_eq; cbn [history session_space wiki];
      rewrite <- app_assoc;
      (exists text; eexists; split; [reflexivity|]; rewrite Hq; cbn [fst];
       split;
         [eexists _, _; split; [reflexivity|]; split;
            [intros given Hgiven; by simplify_eq|by split]|];
       split; [reflexivity|]; split; [done|]; cbn; by apply Hspace).
Qed.

(** X4: a resolution writes no file but the one it resolves, and it writes
    nothing at all when it raises: the identity is persisted only after the
    remote call has answered. *)
Theorem resolution_writes_one_file (absolute_path : Path)
    (parent_id : option QID) (title : option str) (w : World) :
  let o := _get_or_create_page absolute_path parent_id title w in
  (∀ p, p ≠ absolute_path → files (world_of o) !! p = files w !! p) ∧
  (¬ returned o → files (world_of o) = files w).
Proof.
  cbn zeta.
  destruct (resolve_effect absolute_path parent_id title w)
    as [Hsame|(Hret & text & new & _ & _ & Hwrite)].
  - split; [intros p _; by rewrite Hsame|done].
  - split; [|done]. intros p Hp. rewrite Hwrite. by apply lookup_insert_ne.
Qed.

(** X5: a title given to the resolver is the title asked for; the
    front-matter is then not loaded, so it cannot make the call fail. *)
Theorem explicit_title_wins (absolute_path : Path) (parent : QID)
    (title : str) (w : World) (text : str) :
  files w !! absolute_path = Some text →
  (extract_qualified_id text).1 = None →
  history (world_of (_get_or_create_page absolute_path (Some parent)
                       (Some title) w))
  = history w ++
    [Resolve absolute_path (Some parent);
     Remote (session_space w)
       (GetOrCreatePage title (ConfluenceQualifiedID.page_id parent)
          (ConfluenceQualifiedID.space_key parent))].
Proof.
  intros Hfile Hq.
  unfold _get_or_create_page, _create_page, frontmatter_title, _update_markdown.
  unfold mbind, M_bind, record, read_text, write_text, remote,
    api_space_key, raise, mret, M_ret.
  cbn [files wiki session_space history]. rewrite Hfile.
  destruct (extract_qualified_id text) as [qid body]. cbn [fst] in Hq. subst qid.
  destruct (extract_frontmatter body) as [fm body'].
  repeat case_match; simplify_eq; cbn [world_of history];
    by rewrite <- app_assoc.
Qed.

(** X6: without a given title, a front-matter that loads as a mapping gives
    the title when its [title] is a string; a mapping without [title], or
    with one that is not a string, leaves the file's base name without
    extension. *)
Theorem front_matter_mapping_title (absolute_path : Path) (parent : QID)
    (w : World) (text fm body : str) (items : list (str * Yaml)) :
  files w !! absolute_path = Some text →
  (extract_qualified_id text).1 = None →
  extract_frontmatter (extract_qualified_id text).2 = (Some fm, body) →
  safe_load fm = Some (YMap items) →
  history (world_of (_get_or_create_page absolute_path (Some parent) None w))
  = history w ++
    [Resolve absolute_path (Some parent);
     Remote (session_space w)
       (GetOrCreatePage
          match yaml_get (lit "title") items with
          | Some (YStr property_title) => property_title
          | _ => stem absolute_path
          end
          (ConfluenceQualifiedID.page_id parent)
          (ConfluenceQualifiedID.space_key parent))].
Proof.
  intros Hfile Hq Hfm Hload.
  unfold _get_or_create_page, _create_page, frontmatter_title, _update_markdown.
  unfold mbind, M_bind, record, read_text, write_text, remote,
    api_space_key, raise, mret, M_ret.
  cbn [files wiki session_space history]. rewrite Hfile.
  destruct (extract_qualified_id text) as [qid text']. cbn [fst snd] in *.
  subst qid. rewrite Hfm, Hload.
  repeat case_match; simplify_eq; cbn [world_of history];
    by rewrite <- app_assoc.
Qed.
End ResolverEffects.

(** ** Directory Indexer: the walk *)

Lemma keys_after_app (keys0 a b : list Path) :
  keys_after keys0 (a ++ b) = keys_after (keys_after keys0 a) b.
Proof. unfold keys_after. apply foldl_app. Qed.

Lemma dict_keys_set_after (k : Path) (v : ConfluencePageMetadata.t) (d : Dict) :
  dict_keys (dict_set k v d) = keys_after (dict_keys d) [k].
Proof.
  unfold keys_after. cbn [foldl].
  induction d as [|[k' v'] d IH]; cbn [dict_set dict_keys map fst].
  - rewrite bool_decide_eq_false_2 by apply not_elem_of_nil. done.
  - destruct (decide (k = k')) as [->|Hne]; cbn [dict_keys map fst].
    + rewrite bool_decide_eq_true_2 by (apply elem_of_cons; by left). done.
    + fold (dict_keys (dict_set k v d)). fold (dict_keys d). rewrite IH.
      destruct (bool_decide (k ∈ dict_keys d)) eqn:Hin.
      * apply bool_decide_eq_true_1 in Hin.
        rewrite bool_decide_eq_true_2 by (apply elem_of_cons; by right). done.
      * apply bool_decide_eq_false_1 in Hin.
        rewrite bool_decide_eq_false_2; [done|].
        rewrite elem_of_cons. by intros [?|?].
Qed.

Lemma keys_after_NoDup (keys0 paths : list Path) :
  NoDup (keys0 ++ paths) → keys_after keys0 paths = keys0 ++ paths.
Proof.
  revert keys0. induction paths as [|p paths IH]; intros keys0 Hnd.
  - by rewrite app_nil_r.
  - change (p :: paths) with ([p] ++ paths) in *.
    rewrite keys_after_app. rewrite app_assoc in Hnd |- *.
    assert (keys_after keys0 [p] = keys0 ++ [p]) as ->; [|by apply IH].
    unfold keys_after. cbn [foldl]. rewrite bool_decide_eq_false_2; [done|].
    apply NoDup_app in Hnd as [Hnd _]. apply NoDup_app in Hnd as (_ & Hp & _).
    intros Hin. apply (Hp p Hin). apply elem_of_cons. by left.
Qed.

Section Walk.
Context `{Collaborators}.

Local Abbreviation QID := ConfluenceQualifiedID.t.

Lemma keeps_marked_refl (w : World) : keeps_marked w w.
Proof. by intros p text q. Qed.

Lemma keeps_marked_trans (w w1 w2 : World) :
  keeps_marked w w1 → keeps_marked w1 w2 → keeps_marked w w2.
Proof. intros H1 H2 p text q Hp Hq. eapply H2; [|done]. by eapply H1. Qed.

Lemma keeps_marked_same (w w' : World) : files w' = files w → keeps_marked w w'.
Proof. intros Hsame p text q Hp _. by rewrite Hsame. Qed.

Lemma follows_ret {A} (keys_of : A → list Path) (a : A) (w : World) :
  follows keys_of (keys_of a) [] w (Returned a w).
Proof.
  exists []. split; [apply index_trace_refl|]. split; [done|].
  split; [done|]. split; [apply keeps_marked_refl|].
  by intros a' w' [= <- <-].
Qed.

Lemma follows_raised {A} (keys_of : A → list Path) (keys0 plan : list Path)
    (e : Exception) (w : World) :
  follows keys_of keys0 plan w (Raised e w).
Proof.
  exists []. split; [apply index_trace_refl|]. split; [apply prefix_nil|].
  split; [done|]. split; [apply keeps_marked_refl|done].
Qed.

Lemma follows_bind {A B} (kA : A → list Path) (kB : B → list Path)
    (keys0 plan1 plan2 : list Path) (m : M A) (f : A → M B) (w : World) :
  follows kA keys0 plan1 w (m w) →
  (∀ a w1, m w = Returned a w1 → follows kB (kA a) plan2 w1 (f a w1)) →
  follows kB keys0 (plan1 ++ plan2) w ((m ≫= f) w).
Proof.
  intros (res1 & Htrace1 & Hprefix1 & Hframe1 & Hmarked1 & Hall1) Hf.
  rewrite bind_unfold.
  destruct (m w) as [a w1|e w1]; cbn [world_of] in *.
  - destruct (Hall1 a w1 eq_refl) as [Hres1 Hkeys1].
    destruct (Hf a w1 eq_refl)
      as (res2 & Htrace2 & Hprefix2 & Hframe2 & Hmarked2 & Hall2).
    exists (res1 ++ res2). split; [by eapply index_trace_trans|].
    rewrite List.map_app, Hres1. split; [by apply prefix_app|].
    split; [|split; [by eapply keeps_marked_trans|]].
    + intros p [Hp1 Hp2]%not_elem_of_app.
      rewrite Hframe2 by done. apply Hframe1. by rewrite Hres1.
    + intros b w2 Hb. destruct (Hall2 b w2 Hb) as [-> ->].
      by rewrite Hkeys1, keys_after_app.
  - exists res1. split; [done|]. split; [by apply prefix_app_r|]. by repeat split.
Qed.

Lemma follows_resolve (doc : Path) (parent_id : option QID)
    (page_metadata : Dict) (w : World) :
  follows (λ metadata, dict_keys (dict_set doc metadata page_metadata))
    (dict_keys page_metadata) [doc] w (_get_or_create_page doc parent_id None w).
Proof.
  exists [(doc, parent_id)]. split; [apply resolve_trace|]. split; [done|].
  pose proof (resolve_effect doc parent_id None w) as Heffect. cbn zeta in Heffect.
  split; [|split].
  - intros p Hp. apply not_elem_of_cons in Hp as [Hp _].
    destruct Heffect as [->|(_ & text & new & _ & _ & ->)]; [done|].
    by apply lookup_insert_ne.
  - destruct Heffect as [Hsame|(_ & text & new & Hfile & Hq & Hwrite)];
      [by apply keeps_marked_same|].
    intros p text' q Hp Hq'. rewrite Hwrite.
    destruct (decide (p = doc)) as [->|Hne]; [congruence|].
    by rewrite lookup_insert_ne.
  - intros metadata w' _. split; [done|]. apply dict_keys_set_after.
Qed.

Lemma follows_index_files (plain : list Path) (parent_id : option QID)
    (page_metadata : Dict) (w : World) :
  follows dict_keys (dict_keys page_metadata) plain w
    (index_files plain parent_id page_metadata w).
Proof.
  revert page_metadata w.
  induction plain as [|doc plain IH]; intros page_metadata w.
  - apply (follows_ret dict_keys).
  - cbn [index_files]. change (doc :: plain) with ([doc] ++ plain).
    eapply follows_bind; [apply follows_resolve|].
    intros metadata w1 _. apply IH.
Qed.

Lemma follows_plain_files (plain : list Path) (parent_id : option QID)
    (page_metadata : Dict) (w : World) :
  follows (λ r : option QID * Dict, dict_keys r.2) (dict_keys page_metadata)
    plain w
    ((index_files plain parent_id page_metadata
      ≫= λ page_metadata', mret (parent_id, page_metadata')) w).
Proof.
  rewrite <- (app_nil_r plain) at 1.
  eapply follows_bind; [apply follows_index_files|].
  intros pm' w1 _.
  apply (follows_ret (λ r : option QID * Dict, dict_keys r.2) (parent_id, pm')).
Qed.

Lemma follows_index_documents (local_dir : Path) (entries : list Entry)
    (root_id : option QID) (page_metadata : Dict) (w : World) :
  follows (λ r, dict_keys r.2) (dict_keys page_metadata)
    (documents_in_order local_dir entries) w
    (index_documents local_dir entries root_id page_metadata w).
Proof.
  unfold index_documents, documents_in_order.
  destruct (parent_document _ _) as [parent_doc|].
  - rewrite !bind_unfold.
    pose proof (follows_bind
                  (λ metadata, dict_keys (dict_set parent_doc metadata page_metadata))
                  (λ r : option QID * Dict, dict_keys r.2)
                  (dict_keys page_metadata) [parent_doc]
                  (list_remove parent_doc (scanned_files local_dir entries))
                  (_get_or_create_page parent_doc root_id None)
                  (λ metadata,
                     read_qualified_id parent_doc ≫= λ embedded,
                     index_files
                       (list_remove parent_doc (scanned_files local_dir entries))
                       match embedded with Some q => Some q | None => root_id end
                       (dict_set parent_doc metadata page_metadata)
                     ≫= λ pm', mret (match embedded with
                                     | Some q => Some q
                                     | None => root_id
                                     end, pm')) w
                  (follows_resolve _ _ _ _)) as Hbind.
    rewrite bind_unfold in Hbind.
    destruct (_get_or_create_page parent_doc root_id None w)
      as [metadata w1|e w1].
    + revert Hbind. unfold read_qualified_id, read_text. rewrite !bind_unfold.
      destruct (files w1 !! parent_doc) as [text|] eqn:Hfile; cbn [mret M_ret];
        intros Hbind; apply Hbind; intros a w2 [= <- <-];
        rewrite !bind_unfold, Hfile; cbn [mret M_ret];
        [apply follows_plain_files|apply follows_raised].
    + apply Hbind. intros a w2 [=].
  - rewrite bind_unfold. cbn [mret M_ret]. apply follows_plain_files.
Qed.
Lemma traversal_unfold (local_dir : Path) (name : str) (entries : list Entry) :
  traversal local_dir (Directory name entries)
  = documents_in_order local_dir entries ++ traversal_below local_dir entries.
Proof.
  cbn [traversal]. f_equal.
  induction entries as [|e entries IH]; [done|].
  cbn [traversal_below]. by rewrite IH.
Qed.

Lemma follows_index_directory (local_dir : Path) (directory : Entry)
    (root_id : option QID) (page_metadata : Dict) (w : World) :
  follows dict_keys (dict_keys page_metadata) (traversal local_dir directory) w
    (_index_directory local_dir directory root_id page_metadata w).
Proof.
  revert local_dir root_id page_metadata w.
  induction directory as [name|name|name children IH] using Entry_tree_ind;
    intros local_dir root_id page_metadata w;
    [apply follows_raised..|].
  rewrite index_directory_unfold, traversal_unfold.
  pose proof (follows_bind (λ r : option QID * Dict, dict_keys r.2) dict_keys
                (dict_keys page_metadata)
                (documents_in_order local_dir children)
                (traversal_below local_dir children)
                (index_documents local_dir children root_id page_metadata)
                (λ r, index_directories local_dir r.1 children r.2) w
                (follows_index_documents _ _ _ _ _)) as Hbind.
  rewrite bind_unfold in Hbind.
  destruct (index_documents _ _ _ _ w) as [[parent_id pm1] w1|e w1];
    [|apply Hbind; by intros ? ? [=]].
  apply Hbind. intros [parent_id' pm1'] w1' [= <- <- <-]. cbn [fst snd].
  clear Hbind. revert pm1 w1.
  induction IH as [|e scan He _ IHscan]; intros pm1 w1.
  - apply (follows_ret dict_keys).
  - cbn [index_directories traversal_below]. unfold kept_directory at 1.
    destruct (negb _ && is_dir e); [|apply IHscan].
    eapply follows_bind; [apply He|].
    intros pm2 w2 _. apply IHscan.
Qed.

(** X7: the indexer resolves the documents of the tree in the order of the
    walk, representative document before plain files before
    subdirectories, each document once at its place; a run that raises has
    resolved a first part of that list, a run that returns all of it. *)
Theorem indexer_follows_traversal (local_dir : Path) (directory : Entry)
    (root_id : option QID) (page_metadata : Dict) (w : World) :
  let o := _index_directory local_dir directory root_id page_metadata w in
  ∃ res,
    index_trace w (world_of o) res ∧
    map fst res `prefix_of` traversal local_dir directory ∧
    (returned o → map fst res = traversal local_dir directory).
Proof.
  cbn zeta.
  destruct (follows_index_directory local_dir directory root_id page_metadata w)
    as (res & Htrace & Hprefix & _ & _ & Hall).
  exists res. split; [done|]. split; [done|].
  destruct (_index_directory _ _ _ _ w) as [pm' w'|e w']; [|done].
  intros _. by destruct (Hall pm' w' eq_refl).
Qed.

(** X8: after an indexing that returns, the keys of the dict are the keys
    it had, then the documents of the walk not among them, in the order of
    the walk; started on the empty dict in a tree that lists no path twice,
    the keys are exactly the walk. *)
Theorem identity_map_keys_in_walk_order (local_dir : Path) (directory : Entry)
    (root_id : option QID) (page_metadata page_metadata' : Dict) (w w' : World) :
  _index_directory local_dir directory root_id page_metadata w
  = Returned page_metadata' w' →
  dict_keys page_metadata'
  = keys_after (dict_keys page_metadata) (traversal local_dir directory) ∧
  (page_metadata = [] →
   NoDup (traversal local_dir directory) →
   dict_keys page_metadata' = traversal local_dir directory).
Proof.
  intros Hrun.
  destruct (follows_index_directory local_dir directory root_id page_metadata w)
    as (res & _ & _ & _ & _ & Hall).
  destruct (Hall _ _ Hrun) as [_ Hkeys].
  split; [done|]. intros -> Hnd. rewrite Hkeys.
  change (dict_keys []) with (@nil Path). by apply keys_after_NoDup.
Qed.

Lemma synchronized_index_events (added : list Event) :
  Forall (λ ev, is_index_event ev = true) added → synchronized added = [].
Proof.
  induction 1 as [|ev added Hev _ IH]; [done|].
  unfold synchronized in *. cbn. rewrite IH. by destruct ev.
Qed.

Lemma synchronize_page_files (page_path : Path) (page_metadata : Dict)
    (w : World) :
  files (world_of (_synchronize_page page_path page_metadata w)) = files w.
Proof.
  unfold _synchronize_page. rewrite bind_unfold. cbn [record].
  rewrite bind_unfold. unfold new_document. cbn [files].
  destruct (load_document _ _ _) as [detail|document]; [done|].
  destruct (ConfluenceQualifiedID.space_key _) as [[|c k]|];
    try unfold switch_space.
  all: match goal with
       | |- context [_update_document ?d ?b ?w0] =>
           destruct (update_document_makes d b w0) as (calls & (Hf & _) & _);
           destruct (_update_document d b w0) as [[] w2|e w2];
           cbn [world_of set_space files] in *
       end.
  all: done.
Qed.

Lemma synchronize_pages_files (page_metadata : Dict) (paths : list Path)
    (w : World) :
  files (world_of (for_each paths (λ page_path,
                     _synchronize_page page_path page_metadata) w))
  = files w.
Proof.
  revert w. induction paths as [|page_path paths IH]; intros w; [done|].
  cbn [for_each]. rewrite bind_unfold.
  pose proof (synchronize_page_files page_path page_metadata w) as Hpage.
  destruct (_synchronize_page page_path page_metadata w) as [[] w1|e w1];
    cbn [world_of] in Hpage; [|done].
  by rewrite IH.
Qed.

(** X9: a directory run that returns has synchronized exactly the documents
    of the walk, in the order of the walk (in a tree that lists no path
    twice). *)
Theorem directory_run_synchronizes_walk (local_dir : Path) (directory : Entry)
    (w w' : World) :
  NoDup (traversal local_dir directory) →
  synchronize_directory local_dir directory w = Returned tt w' →
  ∃ added,
    history w' = history w ++ added ∧
    synchronized added = traversal local_dir directory.
Proof.
  intros Hnd. unfold synchronize_directory.
  rewrite bind_unfold. cbn [api_space_key]. rewrite bind_unfold.
  match goal with |- context [_index_directory local_dir directory ?r [] w] =>
    destruct (follows_index_directory local_dir directory r [] w)
      as (res & (_ & added1 & Hh1 & Hev1 & _) & _ & _ & _ & Hall);
    destruct (_index_directory local_dir directory r [] w)
      as [page_metadata w1|e w1]; [|done]
  end.
  destruct (Hall _ _ eq_refl) as [_ Hkeys]. cbn [world_of] in Hh1.
  change (dict_keys []) with (@nil Path) in Hkeys.
  rewrite (keys_after_NoDup [] _ Hnd) in Hkeys. cbn [app] in Hkeys.
  intros Hsync.
  destruct (synchronize_pages_trace page_metadata (dict_keys page_metadata) w1)
    as (started & (added2 & Hh2 & _ & Hstarted) & _ & Hreturned).
  rewrite Hsync in Hh2, Hreturned. cbn [world_of] in Hh2.
  exists (added1 ++ added2). rewrite Hh2, Hh1, <- app_assoc. split; [done|].
  unfold synchronized in *. rewrite omap_app.
  fold (synchronized added1). rewrite (synchronized_index_events _ Hev1).
  cbn [app]. rewrite Hstarted, (Hreturned I). exact Hkeys.
Qed.

(** X10: a directory run, however it ends, leaves alone every file outside
    the walk and every file that carried an identity marker when it
    started; only the indexing writes, the synchronizing writes no file. *)
Theorem directory_run_keeps_other_files (local_dir : Path) (directory : Entry)
    (w : World) :
  let o := synchronize_directory local_dir directory w in
  (∀ p, p ∉ traversal local_dir directory →
        files (world_of o) !! p = files w !! p) ∧
  keeps_marked w (world_of o).
Proof.
  cbn zeta. unfold synchronize_directory.
  rewrite bind_unfold. cbn [api_space_key]. rewrite bind_unfold.
  match goal with |- context [_index_directory local_dir directory ?r [] w] =>
    destruct (follows_index_directory local_dir directory r [] w)
      as (res & _ & Hprefix & Hframe & Hmarked & _);
    destruct (_index_directory local_dir directory r [] w)
      as [page_metadata w1|e w1]
  end; cbn [world_of] in *.
  all: assert (∀ p, p ∉ traversal local_dir directory → p ∉ map fst res)
         as Hout
         by (intros p Hp Hin; apply Hp;
             destruct Hprefix as [rest ->]; apply elem_of_app; by left).
  - pose proof (synchronize_pages_files page_metadata (dict_keys page_metadata)
                  w1) as Hsame.
    split.
    + intros p Hp. rewrite Hsame. by apply Hframe, Hout.
    + eapply keeps_marked_trans; [exact Hmarked|].
      by apply keeps_marked_same.
  - split; [|done]. intros p Hp. by apply Hframe, Hout.
Qed.
Lemma scanned_files_filter (local_dir : Path) (entries : list Entry) :
  scanned_files local_dir (List.filter (kept_entry local_dir) entries)
  = scanned_files local_dir entries.
Proof.
  unfold scanned_files. f_equal.
  induction entries as [|e entries IH]; [done|]. cbn [List.filter].
  unfold kept_entry at 1.
  destruct (negb (is_excluded local_dir (entry_name e) (is_dir e))) eqn:Hkept;
    destruct e as [name|name|name children]; cbn in *;
    rewrite ?Hkept; cbn; by rewrite ?IH.
Qed.

Lemma index_directories_filter (local_dir : Path) (parent_id : option QID)
    (entries : list Entry) (page_metadata : Dict) (w : World) :
  index_directories local_dir parent_id
    (List.filter (kept_entry local_dir) entries) page_metadata w
  = index_directories local_dir parent_id entries page_metadata w.
Proof.
  revert page_metadata w.
  induction entries as [|e entries IH]; intros page_metadata w; [done|].
  cbn [List.filter index_directories]. unfold kept_entry at 1.
  destruct (negb (is_excluded local_dir (entry_name e) (is_dir e))) eqn:Hkept;
    destruct e as [name|name|name children];
    cbn [is_dir is_file entry_name andb orb] in *;
    cbn [index_directories is_dir is_file entry_name];
    rewrite ?Hkept; cbn [andb]; try apply IH.
  rewrite !bind_unfold.
  destruct (_index_directory _ _ _ _ w) as [pm1 w1|]; [apply IH|done].
Qed.

(** X11: the entries that the matcher excludes, and those that are neither
    file nor directory, have no effect on the indexing of a directory: the
    run is the run on the listing without them. *)
Theorem unkept_entries_have_no_effect (local_dir : Path) (name : str)
    (entries : list Entry) (root_id : option QID) (page_metadata : Dict)
    (w : World) :
  _index_directory local_dir (Directory name entries) root_id page_metadata w
  = _index_directory local_dir
      (Directory name (List.filter (kept_entry local_dir) entries))
      root_id page_metadata w.
Proof.
  rewrite !index_directory_unfold. unfold index_documents.
  rewrite scanned_files_filter.
  match goal with |- match ?m with _ => _ end = _ => destruct m as [[parent_id pm1] w1|] end;
    [|done].
  symmetry. apply index_directories_filter.
Qed.

(** X12: a directory in which nothing is kept, the empty directory among
    them, contributes nothing: indexing it returns the dict as it was and
    leaves the world as it was, with no resolution and no remote call. *)
Theorem directory_without_documents_is_skipped (local_dir : Path) (name : str)
    (entries : list Entry) (root_id : option QID) (page_metadata : Dict)
    (w : World) :
  (∀ e, e ∈ entries → kept_entry local_dir e = false) →
  _index_directory local_dir (Directory name entries) root_id page_metadata w
  = Returned page_metadata w.
Proof.
  intros Hnone.
  assert (List.filter (kept_entry local_dir) entries = []) as Hfilter.
  { induction entries as [|e entries IH]; [done|]. cbn [List.filter].
    rewrite (Hnone e) by (apply elem_of_cons; by left).
    apply IH. intros e' He'. apply Hnone. apply elem_of_cons. by right. }
  rewrite index_directory_unfold. unfold index_documents.
  rewrite <- scanned_files_filter, Hfilter. unfold scanned_files, parent_document.
  cbn [List.filter map].
  rewrite !bool_decide_eq_false_2 by apply not_elem_of_nil.
  rewrite !bind_unfold. cbn [mret M_ret index_files].
  rewrite bind_unfold. cbn [mret M_ret].
  by rewrite <- index_directories_filter, Hfilter.
Qed.

(** X13: with no root page configured, a directory without representative
    document whose first file carries no identity marker stops the run at
    that file: the error names it, no remote call is made, no file is
    written and nothing is synchronized. *)
Theorem rootless_directory_fails_at_first_unmarked (local_dir : Path)
    (name : str) (entries : list Entry) (w : World)
    (doc : Path) (plain : list Path) (text : str) :
  truthy root_page_id = false →
  parent_document local_dir (scanned_files local_dir entries) = None →
  scanned_files local_dir entries = doc :: plain →
  files w !! doc = Some text →
  (extract_qualified_id text).1 = None →
  synchronize_directory local_dir (Directory name entries) w
  = Raised (ValueError doc)
      (mkWorld (files w) (wiki w) (session_space w)
         (history w ++ [Resolve doc None])).
Proof.
  intros Hroot Hparent Hscan Hfile Hq. unfold synchronize_directory.
  rewrite bind_unfold. cbn [api_space_key]. rewrite bind_unfold.
  assert (match root_page_id with
          | Some (c :: k) =>
              Some (ConfluenceQualifiedID.mk (c :: k) (Some (session_space w)))
          | _ => None
          end = None) as ->.
  { by destruct root_page_id as [[|c k]|]. }
  rewrite index_directory_unfold. unfold index_documents.
  rewrite Hparent, Hscan. rewrite !bind_unfold. cbn [mret M_ret index_files].
  rewrite !bind_unfold.
  unfold _get_or_create_page.
  unfold mbind, M_bind, record, read_text, raise.
  cbn [files wiki session_space history]. rewrite Hfile.
  destruct (extract_qualified_id text) as [qid body]. cbn [fst] in Hq. subst qid.
  by destruct (extract_frontmatter body) as [fm body'].
Qed.

(** X14: synchronizing a single page starts by resolving its path.  For a
    path that does not exist the run raises [FileNotFoundError] there and
    nothing has happened: no page is marked as synchronized and no remote
    call is made.  Otherwise the resolved path is synchronized and nothing
    is resolved: the document is built against the empty identity map, no
    page is fetched or created, and when the document cannot be built the
    run stops before any remote call.  In no case is a file written. *)
Theorem single_page_only_synchronizes (resolved : Path → option Path)
    (page_path : Path) (w : World) :
  let o := synchronize_page resolved page_path w in
  files (world_of o) = files w ∧
  match resolved page_path with
  | None => o = Raised (FileNotFoundError page_path) w
  | Some absolute =>
      sync_trace w (world_of o) [absolute] ∧
      ∀ detail,
        load_document absolute [] (files w) = inl detail →
        o = Raised (DocumentError detail)
              (mkWorld (files w) (wiki w) (session_space w)
                 (history w ++ [Synchronize absolute]))
  end.
Proof.
  cbn zeta. unfold synchronize_page, resolve_strict. rewrite bind_unfold.
  destruct (resolved page_path) as [absolute|]; cbn [mret M_ret raise].
  - split; [apply synchronize_page_files|].
    split; [apply synchronize_page_trace|].
    intros detail Hload. unfold _synchronize_page.
    rewrite bind_unfold. cbn [record]. rewrite bind_unfold.
    unfold new_document. cbn [files]. by rewrite Hload.
  - by split.
Qed.
End Walk.

(** ** Further runs on the small wiki *)

(** A single page under a name that no file has, and under the name of
    a file without page id: the first run stops at the path, the second at
    the document. *)
Example synchronize_page_missing_path :
  let D := demo demo_loader in
  let w := demo_world D [] demo_files in
  let resolved := λ p : Path, if decide (is_Some (files w !! p)) then Some p else None in
  synchronize_page (H := D) resolved (demo_docs ++ [lit "gone.md"]) w
  = Raised (FileNotFoundError (demo_docs ++ [lit "gone.md"])) w ∧
  synchronize_page (H := D) resolved (demo_docs ++ [lit "notes.md"]) w
  = Raised (DocumentError (lit "no page id"))
      (mkWorld (files w) (wiki w) (session_space w)
         [Synchronize (demo_docs ++ [lit "notes.md"])]).
Proof. split; vm_compute; reflexivity. Qed.

Lemma resolution_returns_page_metadata_witness :
  let D := demo demo_loader in
  let path := demo_docs ++ [lit "notes.md"] in
  let w := demo_world D [] demo_files in
  ∃ text page,
    files w !! path = Some text ∧
    (extract_qualified_id text).1 = None ∧
    history (world_of (_get_or_create_page (H := D) path (Some demo_root) None w))
    = [Resolve path (Some demo_root);
       Remote (lit "DOCS") (GetOrCreatePage (lit "notes") (lit "1000") None)] ∧
    ConfluencePage.id page = lit "2".
Proof.
  intros D path w.
  destruct (_get_or_create_page (H := D) path (Some demo_root) None w)
    as [metadata w'|e w'] eqn:Hrun; [|by vm_compute in Hrun].
  destruct (resolution_returns_page_metadata (H := D) path (Some demo_root)
              None w w' metadata Hrun)
    as (text & page & Hfile & Hcall & Hm & _).
  exists text, page. split; [exact Hfile|].
  vm_compute in Hrun. injection Hrun as Hmeta Hw'.
  vm_compute in Hfile. injection Hfile as <-.
  split; [reflexivity|]. split; [by rewrite <- Hw'|].
  rewrite <- Hmeta in Hm. by injection Hm.
Defined.

Lemma explicit_title_wins_witness :
  let D := demo rejecting_loader in
  let path := demo_docs ++ [lit "guide.md"] in
  let text := FM_OPEN ++ lit "title: [x" ++ FM_CLOSE ++ lit "body" in
  let w := demo_world D [] [(path, text)] in
  history (world_of (_get_or_create_page (H := D) path (Some demo_root)
                       (Some (lit "Guide")) w))
  = [Resolve path (Some demo_root);
     Remote (lit "DOCS") (GetOrCreatePage (lit "Guide") (lit "1000") None)].
Proof.
  intros D path text w.
  apply (explicit_title_wins (H := D) path demo_root (lit "Guide") w text);
    reflexivity.
Defined.

Lemma front_matter_mapping_title_witness :
  let D := demo demo_loader in
  let path := demo_docs ++ [lit "guide.md"] in
  let text := FM_OPEN ++ lit "title: Guide" ++ FM_CLOSE ++ lit "body" in
  let w := demo_world D [] [(path, text)] in
  history (world_of (_get_or_create_page (H := D) path (Some demo_root) None w))
  = [Resolve path (Some demo_root);
     Remote (lit "DOCS") (GetOrCreatePage (lit "Guide") (lit "1000") None)].
Proof.
  intros D path text w.
  apply (front_matter_mapping_title (H := D) path demo_root w text
           (lit "title: Guide") text [(lit "title", YStr (lit "Guide"))]);
    reflexivity.
Defined.

Lemma identity_map_keys_in_walk_order_witness :
  let D := demo demo_loader in
  let w := demo_world D [] demo_files in
  ∃ page_metadata' w',
    _index_directory (H := D) demo_docs demo_tree (Some demo_root) [] w
    = Returned page_metadata' w' ∧
    dict_keys page_metadata' = traversal (H := D) demo_docs demo_tree.
Proof.
  intros D w.
  destruct (_index_directory (H := D) demo_docs demo_tree (Some demo_root) [] w)
    as [page_metadata' w'|e w'] eqn:Hrun; [|by vm_compute in Hrun].
  exists page_metadata', w'. split; [done|].
  apply (identity_map_keys_in_walk_order (H := D) demo_docs demo_tree
           (Some demo_root) [] page_metadata' w w' Hrun); [done|].
  compute_done.
Defined.

Lemma directory_run_synchronizes_walk_witness :
  let D := demo demo_loader in
  let w := demo_world D [] demo_files in
  ∃ w' added,
    synchronize_directory (H := D) demo_docs demo_tree w = Returned tt w' ∧
    history w' = added ∧
    synchronized added = traversal (H := D) demo_docs demo_tree.
Proof.
  intros D w.
  destruct (synchronize_directory (H := D) demo_docs demo_tree w)
    as [[] w'|e w'] eqn:Hrun; [|by vm_compute in Hrun].
  destruct (directory_run_synchronizes_walk (H := D) demo_docs demo_tree w w')
    as (added & Hh & Hsync); [compute_done|exact Hrun|].
  exists w', added. split; [done|]. split; [exact Hh|exact Hsync].
Defined.

Lemma directory_without_documents_is_skipped_witness :
  let D := demo demo_loader in
  let w := demo_world D [] demo_files in
  _index_directory (H := D) demo_docs
    (Directory (lit "docs") [File (lit ".hidden.md"); Other (lit "socket")])
    (Some demo_root) [] w
  = Returned [] w.
Proof.
  intros D w.
  apply (directory_without_documents_is_skipped (H := D)).
  intros e He. apply elem_of_cons in He as [->|He]; [reflexivity|].
  apply elem_of_cons in He as [->|He]; [reflexivity|].
  by apply elem_of_nil in He.
Defined.

Lemma rootless_directory_fails_at_first_unmarked_witness :
  let D := rootless (demo demo_loader) in
  let w := demo_world D [] demo_files in
  let doc := demo_docs ++ [lit "notes.md"] in
  synchronize_directory (H := D) demo_docs
    (Directory (lit "docs") [File (lit "notes.md"); File (lit "more.md")]) w
  = Raised (ValueError doc)
      (mkWorld (files w) (wiki w) (session_space w) [Resolve doc None]).
Proof.
  intros D w doc.
  apply (rootless_directory_fails_at_first_unmarked (H := D) demo_docs
           (lit "docs") [File (lit "notes.md"); File (lit "more.md")] w doc
           [demo_docs ++ [lit "more.md"]] (lit "notes"));
    reflexivity.
Defined.
